(** * amazon-s3-backup: reconciliation, stability polling and watch loop

    A shallow embedding of [amazon-s3-backup.py] (the S3 client wrapper, the
    watchdog event handler, the file watcher and the [__main__] driver) and
    of [supervisorapi.py] (the Supervisor REST client).

    Effects are made explicit.  Every call the program makes to a
    collaborator (the logger, the boto3 client, [os.path.getsize],
    [time.sleep]) is recorded as an [event] of a trace; the answers of the
    collaborators are read from a [world] record; Python exceptions are a
    result constructor; the only state that is threaded is the clock that
    [time.sleep] advances. *)

From Stdlib Require Import List String Ascii Bool Arith ZArith NArith Lia.
Import ListNotations.

Local Open Scope string_scope.
Local Open Scope list_scope.

Set Implicit Arguments.
Local Set Warnings "-register-all".

(* ================================================================== *)
(** ** Strings and paths *)

Module Str.

(** [str.lower()] on the ASCII range. *)
Definition lower_ascii (c : ascii) : ascii :=
  let n := nat_of_ascii c in
  if (Nat.leb 65 n && Nat.leb n 90)%bool then ascii_of_nat (n + 32) else c.

Fixpoint lower (s : string) : string :=
  match s with
  | EmptyString => EmptyString
  | String c s' => String (lower_ascii c) (lower s')
  end.

Definition slash : ascii := "/"%char.
Definition newline : ascii := ascii_of_nat 10.

(** [s.split("/")]: the pieces between the separators, empty ones kept. *)
Fixpoint split_slash (s : string) : list string :=
  match s with
  | EmptyString => [EmptyString]
  | String c s' =>
      if Ascii.eqb c slash then EmptyString :: split_slash s'
      else match split_slash s' with
           | x :: xs => String c x :: xs
           | [] => [String c EmptyString]
           end
  end.

Fixpoint has_slash (s : string) : bool :=
  match s with
  | EmptyString => false
  | String c s' => Ascii.eqb c slash || has_slash s'
  end.

Fixpoint no_newline (s : string) : bool :=
  match s with
  | EmptyString => true
  | String c s' => negb (Ascii.eqb c newline) && no_newline s'
  end.

End Str.

(** The part of [pathlib] the program uses, on POSIX path strings. *)
Module Pathlib.

(** A component survives parsing when it is neither empty nor [.]. *)
Definition keeps (c : string) : bool :=
  negb (String.eqb c "") && negb (String.eqb c ".").

(** [Path(s).parts] without the anchor. *)
Definition parts (s : string) : list string :=
  filter keeps (Str.split_slash s).

Definition is_absolute (s : string) : bool :=
  match s with
  | String c _ => Ascii.eqb c Str.slash
  | EmptyString => false
  end.

(** [Path(s).name]: the final component, [""] when there is none. *)
Definition name (s : string) : string := last (parts s) "".

(** The root of a POSIX path: exactly two leading slashes are kept as
    they are, one slash, or three and more, make the root [/]. *)
Definition root (s : string) : string :=
  match s with
  | String a (String b rest) =>
      if Ascii.eqb a Str.slash then
        if Ascii.eqb b Str.slash then
          match rest with
          | String c _ => if Ascii.eqb c Str.slash then "/" else "//"
          | EmptyString => "//"
          end
        else "/"
      else ""
  | String a EmptyString => if Ascii.eqb a Str.slash then "/" else ""
  | EmptyString => ""
  end.

(** The directory prefix that [str(Path(d, entry))] puts before the name
    of a directory entry. *)
Definition dir_prefix (d : string) : string :=
  match parts d with
  | [] => root d
  | ps => root d ++ String.concat "/" ps ++ "/"
  end.

(** [str(Path(Path(d), entry))] for [entry] the name of a directory entry
    (one component, as [iterdir] yields them). *)
Definition join (d entry : string) : string := dir_prefix d ++ entry.

(** What [iterdir] can yield as [x.name]: one non-empty component other
    than [.]. *)
Definition entry_name (n : string) : bool :=
  keeps n && negb (Str.has_slash n).

End Pathlib.

(* ================================================================== *)
(** ** Exceptions, log calls and the trace *)

Inductive exn : Type :=
| Exception_                (* a bare [Exception] *)
| NoSuchBucket              (* [s3_client.exceptions.NoSuchBucket] *)
| S3UploadFailedError       (* [boto3.exceptions.S3UploadFailedError] *)
| OtherError (what : string)(* any other subclass of [Exception] *)
| SystemExit (code : Z).    (* raised by [sys.exit]; not an [Exception] *)

(** [isinstance(e, Exception)]. *)
Definition is_Exception (e : exn) : bool :=
  match e with
  | SystemExit _ => false
  | _ => true
  end.

Inductive level : Type := DEBUG | INFO | WARNING | ERROR | CRITICAL.

(** One constructor per logging call site, with the values the f-string
    interpolates. *)
Inductive message : Type :=
| MsgCreatingClient
| MsgListError (err : exn)
| MsgTruncated
| MsgUploading (file : string)
| MsgUploaded (file_name bucket_name storage_class : string)
| MsgUploadError (err : exn)
| MsgProcessing (src_path : string)
| MsgBadArgs (argv : list string)
| MsgSizeMatches (local_file : string) (local_file_size : N)
| MsgSizeDiffers (local_file : string)
| MsgNotInS3 (local_file : string)
| MsgMonitoring (monitor_path : string)
| MsgNoMonitorPath (monitor_path : string).

Inductive event : Type :=
| Log (l : level) (m : message)
| ListObjectsV2 (Bucket : string)
| UploadFile (Filename Bucket Key StorageClass : string)
| GetSize (path : string) (size : N)
| Sleep (seconds : nat)
| Schedule (path : string) (recursive : bool)
| ObserverStart.

Definition trace := list event.

(* ================================================================== *)
(** ** The effect monad: clock state, trace, exceptions, divergence *)

Inductive result (A : Type) : Type :=
| Ret (a : A) (clock : nat)     (* returned normally *)
| Raise (e : exn) (clock : nat) (* an exception is propagating *)
| Running.                      (* still inside a loop when observation stops *)

Arguments Ret {A} a clock.
Arguments Raise {A} e clock.
Arguments Running {A}.

Definition M (A : Type) : Type := nat -> trace * result A.

Definition ret {A} (a : A) : M A := fun c => ([], Ret a c).

Definition bind {A B} (m : M A) (k : A -> M B) : M B :=
  fun c =>
    let (t, r) := m c in
    match r with
    | Ret a c' => let (t', r') := k a c' in (t ++ t', r')
    | Raise e c' => (t, Raise e c')
    | Running => (t, Running)
    end.

Definition emit (e : event) : M unit := fun c => ([e], Ret tt c).

Definition raise {A} (e : exn) : M A := fun c => ([], Raise e c).

(** [time.sleep(n)] *)
Definition sleep (n : nat) : M unit := fun c => ([Sleep n], Ret tt (c + n)).

(** The loop is still going when the observation (the fuel) ends. *)
Definition running {A} : M A := fun _ => ([], Running).

(** [try: m  except <clause> as err: h err], where [handles e] says whether
    the clause catches [e]. *)
Definition try_except {A} (m : M A) (handles : exn -> bool) (h : exn -> M A)
  : M A :=
  fun c =>
    let (t, r) := m c in
    match r with
    | Raise e c' =>
        if handles e then let (t', r') := h e c' in (t ++ t', r')
        else (t, Raise e c')
    | _ => (t, r)
    end.

Declare Scope monad_scope.
Delimit Scope monad_scope with monad.
Notation "x <- m ;; k" := (bind m (fun x => k))
  (at level 61, m at next level, right associativity) : monad_scope.
Notation "m ;; k" := (bind m (fun _ => k))
  (at level 61, right associativity) : monad_scope.
Local Open Scope monad_scope.

(** [logger.<level>(...)]: the call is recorded whatever level
    [set_log_level] configured; [logger.exception] logs at [ERROR]. *)
Definition logger (l : level) (m : message) : M unit := emit (Log l m).

(** [for x in xs: body(x)] *)
Fixpoint for_each {A} (xs : list A) (body : A -> M unit) : M unit :=
  match xs with
  | [] => ret tt
  | x :: rest => body x ;; for_each rest body
  end.

(* ================================================================== *)
(** ** The world: what the collaborators answer *)

(** An object of a [list_objects_v2] response. *)
Record s3_object : Type := {
  Key : string;
  Size : Z;
  LastModified : Z
}.

Record list_response : Type := {
  IsTruncated : option bool;            (* [response.get("IsTruncated")] *)
  Contents : option (list s3_object)    (* [response.get("Contents")] *)
}.

(** A node of the local file system. [st_size] is what [stat()] reports. *)
Inductive node : Type :=
| RegularFile (name : string) (st_size : N)
| Directory (name : string) (st_size : N) (children : list node).

Definition node_name (n : node) : string :=
  match n with
  | RegularFile name _ => name
  | Directory name _ _ => name
  end.

Definition node_size (n : node) : N :=
  match n with
  | RegularFile _ sz => sz
  | Directory _ sz _ => sz
  end.

(** [x.is_file()] *)
Definition is_file (n : node) : bool :=
  match n with
  | RegularFile _ _ => true
  | Directory _ _ _ => false
  end.

Record world : Type := {
  (** [s3_client.list_objects_v2(Bucket=b)]: an exception or a response *)
  list_objects_v2 : string -> exn + list_response;
  (** [s3_client.upload_file(Filename=f, ...)]: the exception it raises,
      if any *)
  s3_upload_file : string -> option exn;
  (** what is at a path when the process starts: nothing, a file, or a
      directory with its entries *)
  fs : string -> option node;
  (** [os.path.getsize(p)] at a time of the clock; [None] when the call
      raises [OSError] *)
  getsize : string -> nat -> option N
}.

(* ================================================================== *)
(** ** class S3Bucket *)

Record S3Bucket : Type := {
  bucket_name : string;
  storage_class : string
}.

(** An element of the list [list_bucket] returns. *)
Record remote_object : Type := {
  name : string;
  size : Z;
  last_modified : Z
}.

(** [S3Bucket.__init__] *)
Definition S3Bucket_init (bucket_name bucket_region storage_class : string)
  : M S3Bucket :=
  logger DEBUG MsgCreatingClient ;;
  ret {| bucket_name := bucket_name; storage_class := storage_class |}.

Definition is_NoSuchBucket (e : exn) : bool :=
  match e with NoSuchBucket => true | _ => false end.

Definition is_S3UploadFailedError (e : exn) : bool :=
  match e with S3UploadFailedError => true | _ => false end.

(** The call [self.s3_client.list_objects_v2(Bucket=...)]. *)
Definition call_list_objects_v2 (w : world) (Bucket : string)
  : M list_response :=
  emit (ListObjectsV2 Bucket) ;;
  match list_objects_v2 w Bucket with
  | inl e => raise e
  | inr response => ret response
  end.

(** [response.get("Contents") or []] *)
Definition contents_or_nil (response : list_response) : list s3_object :=
  match Contents response with
  | Some (x :: xs) => x :: xs
  | _ => []
  end.

Definition to_remote (obj : s3_object) : remote_object :=
  {| name := Key obj; size := Size obj; last_modified := LastModified obj |}.

(** [S3Bucket.list_bucket] *)
Definition list_bucket (w : world) (self : S3Bucket) : M (list remote_object) :=
  response <-
    try_except (call_list_objects_v2 w (bucket_name self))
      is_NoSuchBucket
      (fun err => logger ERROR (MsgListError err) ;; raise Exception_) ;;
  (match IsTruncated response with
   | Some true => logger WARNING MsgTruncated
   | _ => ret tt
   end) ;;
  ret (map to_remote (contents_or_nil response)).

(** The call [self.s3_client.upload_file(Filename=..., Bucket=..., Key=...,
    ExtraArgs={"StorageClass": ...})]. *)
Definition call_upload_file (w : world)
    (Filename Bucket Key StorageClass : string) : M unit :=
  emit (UploadFile Filename Bucket Key StorageClass) ;;
  match s3_upload_file w Filename with
  | Some e => raise e
  | None => ret tt
  end.

(** [S3Bucket.upload_file] *)
Definition upload_file (w : world) (self : S3Bucket) (file : string) : M unit :=
  let file_name := Pathlib.name file in
  try_except
    (logger INFO (MsgUploading file) ;;
     call_upload_file w file (bucket_name self) file_name (storage_class self) ;;
     logger INFO (MsgUploaded file_name (bucket_name self) (storage_class self)))
    is_S3UploadFailedError
    (fun err => logger ERROR (MsgUploadError err)).

(* ================================================================== *)
(** ** Regular expressions of the shape the handler uses *)

Module Regex.

Inductive atom : Type :=
| AnyPlus              (* [.+]: one or more characters other than newline *)
| Char (c : ascii)     (* a literal (possibly escaped) character *)
| EndAnchor.           (* [$] *)

Definition pattern := list atom.

Definition char_eq (ignore_case : bool) (a b : ascii) : bool :=
  if ignore_case then Ascii.eqb (Str.lower_ascii a) (Str.lower_ascii b)
  else Ascii.eqb a b.

(** Two strings equal character by character, up to case when asked. *)
Fixpoint str_eq (ignore_case : bool) (a b : string) : bool :=
  match a, b with
  | EmptyString, EmptyString => true
  | String x a', String y b' =>
      char_eq ignore_case x y && str_eq ignore_case a' b'
  | _, _ => false
  end.

(** [$] without [re.MULTILINE]: at the end of the string, or just before
    a newline that ends it. *)
Definition at_end (s : string) : bool :=
  match s with
  | EmptyString => true
  | String c EmptyString => Ascii.eqb c Str.newline
  | _ => false
  end.

(** [re.compile(p, flags).match(s)] as a truth value: the pattern matches
    a prefix of [s]. *)
Fixpoint re_match (ignore_case : bool) (p : pattern) (s : string) : bool :=
  match p with
  | [] => true
  | EndAnchor :: p' => at_end s && re_match ignore_case p' s
  | Char c :: p' =>
      match s with
      | String c' s' => char_eq ignore_case c c' && re_match ignore_case p' s'
      | EmptyString => false
      end
  | AnyPlus :: p' =>
      (fix plus (s : string) : bool :=
         match s with
         | EmptyString => false
         | String c s' =>
             negb (Ascii.eqb c Str.newline)
             && (re_match ignore_case p' s' || plus s')
         end) s
  end.

End Regex.

(* ================================================================== *)
(** ** class BackupEventHandler(RegexMatchingEventHandler) *)

Inductive event_type : Type :=
| Created | Modified | Deleted | Moved | Closed | Opened.

(** A watchdog file system event. *)
Record fs_event : Type := {
  ev_type : event_type;
  src_path : string;
  is_directory : bool
}.

(** [BACKUP_REGEX = [r".+\.tar$"]] *)
Definition BACKUP_REGEX : list Regex.pattern :=
  [[Regex.AnyPlus; Regex.Char "."; Regex.Char "t"; Regex.Char "a";
    Regex.Char "r"; Regex.EndAnchor]]%char.

Record BackupEventHandler : Type := {
  regexes : list Regex.pattern;
  case_sensitive : bool;
  s3_bucket : S3Bucket
}.

(** [BackupEventHandler.__init__]: [super().__init__(self.BACKUP_REGEX)]
    leaves [case_sensitive] at the base class's default, [False]. *)
Definition BackupEventHandler_init (s3_bucket : S3Bucket)
  : BackupEventHandler :=
  {| regexes := BACKUP_REGEX; case_sensitive := false;
     s3_bucket := s3_bucket |}.

(** [any(r.match(p) for r in self.regexes)] of the base class's dispatch. *)
Definition matches (self : BackupEventHandler) (p : string) : bool :=
  existsb (fun r => Regex.re_match (negb (case_sensitive self)) r p)
    (regexes self).

(** [os.path.getsize(p)] at the current time of the clock. *)
Definition os_path_getsize (w : world) (p : string) : M N :=
  fun c =>
    match getsize w p c with
    | Some n => ([GetSize p n], Ret n c)
    | None => ([], Raise (OtherError "OSError") c)
    end.

(** The loop of [process]:
    [while file_size != getsize(p): file_size = getsize(p); time.sleep(1)].
    The test and the assignment read the size at the same time of the
    clock; only the sleep advances it.  [fuel] bounds the number of tests
    of the condition that are observed. *)
Fixpoint poll_size (fuel : nat) (w : world) (p : string) (file_size : Z)
  : M unit :=
  match fuel with
  | O => running
  | S fuel' =>
      current <- os_path_getsize w p ;;
      if negb (Z.eqb file_size (Z.of_N current)) then
        file_size' <- os_path_getsize w p ;;
        sleep 1 ;;
        poll_size fuel' w p (Z.of_N file_size')
      else ret tt
  end.

(** [BackupEventHandler.process] *)
Definition process (fuel : nat) (w : world) (self : BackupEventHandler)
    (event : fs_event) : M unit :=
  logger INFO (MsgProcessing (src_path event)) ;;
  let file_size := (-1)%Z in
  poll_size fuel w (src_path event) file_size ;;
  let file_name := Pathlib.name (src_path event) in   (* not used *)
  upload_file w (s3_bucket self) (src_path event).

(** [BackupEventHandler.on_created] *)
Definition on_created (fuel : nat) (w : world) (self : BackupEventHandler)
    (event : fs_event) : M unit :=
  process fuel w self event.

(** The inherited [dispatch]: an event none of whose paths matches a regex
    is dropped; a matching one goes to the method of its type, of which the
    class overrides [on_created] only. *)
Definition dispatch (fuel : nat) (w : world) (self : BackupEventHandler)
    (event : fs_event) : M unit :=
  if matches self (src_path event) then
    match ev_type event with
    | Created => on_created fuel w self event
    | _ => ret tt
    end
  else ret tt.

(** Which events a watch scheduled on directory [d] sees: those of paths
    strictly below [d]; at any depth when [recursive], else only of the
    directory's own entries. *)
Fixpoint strip_prefix (pre l : list string) : option (list string) :=
  match pre, l with
  | [], _ => Some l
  | a :: pre', b :: l' => if String.eqb a b then strip_prefix pre' l' else None
  | _ :: _, [] => None
  end.

Definition depth_below (d p : string) : option nat :=
  match strip_prefix (Pathlib.parts d) (Pathlib.parts p) with
  | Some rel => Some (List.length rel)
  | None => None
  end.

Definition observed (recursive : bool) (d p : string) : bool :=
  match depth_below d p with
  | Some 0 | None => false
  | Some 1 => true
  | Some _ => recursive
  end.

(** The observer's worker thread: the events of the watched tree are
    handed to the handler one after the other. *)
Definition observer_thread (fuel : nat) (w : world)
    (self : BackupEventHandler) (d : string) (recursive : bool)
    (events : list fs_event) : M unit :=
  for_each events
    (fun event =>
       if observed recursive d (src_path event)
       then dispatch fuel w self event
       else ret tt).

(* ================================================================== *)
(** ** The startup reconciler ([__main__]) *)

(** [Path(p).exists()] *)
Definition path_exists (w : world) (p : string) : bool :=
  match fs w p with
  | Some _ => true
  | None => false
  end.

(** [Path(p).iterdir()], forced by the list comprehension. *)
Definition iterdir (w : world) (p : string) : M (list node) :=
  match fs w p with
  | Some (Directory _ _ children) => ret children
  | Some (RegularFile _ _) => raise (OtherError "NotADirectoryError")
  | None => raise (OtherError "FileNotFoundError")
  end.

(** [[x.name for x in entries if x.is_file()]] *)
Definition local_files_of (entries : list node) : list string :=
  map node_name (filter is_file entries).

(** What is at [Path(d, file)]: the entry of directory [d] with that
    name. *)
Definition lookup_entry (w : world) (d file : string) : option node :=
  match fs w d with
  | Some (Directory _ _ children) =>
      find (fun n => String.eqb (node_name n) file) children
  | _ => None
  end.

(** [Path(d, file).stat().st_size] *)
Definition stat_st_size (w : world) (d file : string) : M N :=
  match lookup_entry w d file with
  | Some n => ret (node_size n)
  | None => raise (OtherError "FileNotFoundError")
  end.

(** [[f for f in bucket_contents if f.get("name") == file]] *)
Definition found_in (bucket_contents : list remote_object) (file : string)
  : list remote_object :=
  filter (fun f => String.eqb (name f) file) bucket_contents.

(** The body of [for file in local_files]. *)
Definition reconcile_file (w : world) (s3_bucket : S3Bucket)
    (monitor_path : string) (bucket_contents : list remote_object)
    (upload_missing_files : bool) (file : string) : M unit :=
  let local_file := Pathlib.join monitor_path file in
  local_file_size <- stat_st_size w monitor_path file ;;
  let found := found_in bucket_contents file in
  match found with
  | found0 :: _ =>
      if Z.eqb (Z.of_N local_file_size) (size found0) then
        logger DEBUG (MsgSizeMatches local_file local_file_size)
      else
        logger WARNING (MsgSizeDiffers local_file) ;;
        upload_file w s3_bucket local_file
  | [] =>
      logger WARNING (MsgNotInS3 local_file) ;;
      if upload_missing_files then upload_file w s3_bucket local_file
      else ret tt
  end.

Definition reconcile (w : world) (s3_bucket : S3Bucket)
    (monitor_path : string) (bucket_contents : list remote_object)
    (upload_missing_files : bool) (local_files : list string) : M unit :=
  for_each local_files
    (reconcile_file w s3_bucket monitor_path bucket_contents
       upload_missing_files).

(** [True if upload_missing_files.lower() == "true" else False] *)
Definition parse_upload_missing_files (arg : string) : bool :=
  if String.eqb (Str.lower arg) "true" then true else false.

(** [sys.exit(code)] *)
Definition sys_exit {A} (code : Z) : M A := raise (SystemExit code).

(* ================================================================== *)
(** ** class FileWatcher *)

Record FileWatcher : Type := {
  fw_monitor_path : string;
  fw_event_handler : BackupEventHandler
}.

(** [FileWatcher.__init__] *)
Definition FileWatcher_init (monitor_path : string) (s3_bucket : S3Bucket)
  : FileWatcher :=
  {| fw_monitor_path := monitor_path;
     fw_event_handler := BackupEventHandler_init s3_bucket |}.

(** [FileWatcher.schedule]: [recursive=True] is a literal of the source. *)
Definition FileWatcher_schedule (self : FileWatcher) : M unit :=
  emit (Schedule (fw_monitor_path self) true).

Definition FileWatcher_start (self : FileWatcher) : M unit :=
  FileWatcher_schedule self ;;
  emit ObserverStart.

(** [FileWatcher.run]: after [start] the main thread stays in
    [while True: time.sleep(1)]; it leaves it only on a keyboard interrupt,
    which is outside the model, so the result is [Running]. *)
Definition FileWatcher_run (self : FileWatcher) : M unit :=
  FileWatcher_start self ;;
  running.

(** What the observer's thread does for a started [FileWatcher]: the watch
    is the one [schedule] registered. *)
Definition FileWatcher_worker (fuel : nat) (w : world) (self : FileWatcher)
    (events : list fs_event) : M unit :=
  observer_thread fuel w (fw_event_handler self) (fw_monitor_path self) true
    events.

(** The status the interpreter ends with: that of [sys.exit], 1 for an
    exception nobody caught, 0 at the end of the script; none while it
    runs. *)
Definition exit_status (r : result unit) : option Z :=
  match r with
  | Ret _ _ => Some 0%Z
  | Raise (SystemExit code) _ => Some code
  | Raise _ _ => Some 1%Z
  | Running => None
  end.

(** The [if __name__ == "__main__"] block, after [set_log_level]. *)
Definition main (w : world) (argv : list string) : M unit :=
  if negb (Nat.eqb (List.length argv) 6) then
    logger CRITICAL (MsgBadArgs argv)
  else
    match argv with
    | [_; monitor_path; bucket_name; bucket_region; storage_class;
       upload_missing_files] =>
        let upload_missing_files :=
          parse_upload_missing_files upload_missing_files in
        s3_bucket <- S3Bucket_init bucket_name bucket_region storage_class ;;
        if path_exists w monitor_path then
          bucket_contents <-
            try_except (list_bucket w s3_bucket) is_Exception
              (fun _ => sys_exit 1) ;;
          entries <- iterdir w monitor_path ;;
          let local_files := local_files_of entries in
          reconcile w s3_bucket monitor_path bucket_contents
            upload_missing_files local_files ;;
          logger INFO (MsgMonitoring monitor_path) ;;
          FileWatcher_run (FileWatcher_init monitor_path s3_bucket)
        else
          logger CRITICAL (MsgNoMonitorPath monitor_path)
    | _ => raise (OtherError "ValueError")   (* the unpacking; unreachable *)
    end.

(* ================================================================== *)
(** ** supervisorapi.py *)

Module SupervisorAPI.

(** A decoded JSON document, or [None]. *)
Inductive pyval : Type :=
| PNone
| PBool (b : bool)
| PInt (z : Z)
| PStr (s : string)
| PList (l : list pyval)
| PDict (d : list (string * pyval)).

Inductive error : Type :=
| SupervisorAPIError (msg : string)
| AttributeError          (* [.get] on a value that has no such attribute *)
| Unhandled (what : string).  (* an exception no clause catches *)

Inductive res (A : Type) : Type :=
| Ok (a : A)
| Err (e : error).

Arguments Ok {A} a.
Arguments Err {A} e.

Definition res_bind {A B} (r : res A) (k : A -> res B) : res B :=
  match r with
  | Ok a => k a
  | Err e => Err e
  end.

(** What [self.session.get] / [self.session.post] does. *)
Inductive http_outcome : Type :=
| ConnectionError
| RetryError
| Timeout
| OtherException (what : string)
| Response (ok : bool) (json : option pyval).
  (* [json = None]: [response.json()] raises [ValueError] *)

Record session : Type := {
  session_get : string -> http_outcome;
  session_post : string -> http_outcome
}.

Definition BASE_URL : string := "http://supervisor".

(** The body shared by [_get] and [_post], after the request. *)
Definition handle (o : http_outcome) : res pyval :=
  match o with
  | ConnectionError | RetryError =>
      Err (SupervisorAPIError
             "Error connecting to Home Assistant Supervisor API")
  | Timeout =>
      Err (SupervisorAPIError
             "Timeout connecting to Home Assistant Supervisor API")
  | OtherException what => Err (Unhandled what)
  | Response ok body =>
      let json := PNone in
      if ok then
        match body with
        | Some v => Ok v
        | None =>
            Err (SupervisorAPIError
                   "Error decoding response from Home Assistant Supervisor API")
        end
      else Ok json
  end.

Definition _get (self : session) (path : string) : res pyval :=
  let url := (BASE_URL ++ path)%string in
  handle (session_get self url).

Definition _post (self : session) (path : string) : res pyval :=
  let url := (BASE_URL ++ path)%string in
  handle (session_post self url).

Fixpoint dict_lookup (d : list (string * pyval)) (key : string)
  : option pyval :=
  match d with
  | [] => None
  | (k, v) :: d' => if String.eqb k key then Some v else dict_lookup d' key
  end.

(** [v.get(key, default)]: only a dict has the method among the values a
    JSON document decodes to. *)
Definition py_get (v : pyval) (key : string) (default : pyval) : res pyval :=
  match v with
  | PDict d =>
      match dict_lookup d key with
      | Some x => Ok x
      | None => Ok default
      end
  | _ => Err AttributeError
  end.

Definition get_snapshots (self : session) : res pyval :=
  res_bind (_get self "/snapshots") (fun response =>
  res_bind (py_get response "data" (PDict [])) (fun data =>
  py_get data "snapshots" (PList []))).

Definition get_snapshot (self : session) (slug : string) : res pyval :=
  res_bind (_get self ("/snapshots/" ++ slug ++ "/info")%string) (fun response =>
  py_get response "data" PNone).

Definition is_ok_str (v : pyval) : bool :=
  match v with
  | PStr s => String.eqb s "ok"
  | _ => false
  end.

Definition remove_snapshot (self : session) (slug : string) : res bool :=
  res_bind (_post self ("/snapshots/" ++ slug ++ "/remove")%string) (fun response =>
  res_bind (py_get response "result" PNone) (fun r =>
  Ok (if is_ok_str r then true else false))).

(** A Supervisor that answers every request with a status that is
    neither a success nor one of the retried ones (a 404, say). *)
Definition Scenario_session : session :=
  {| session_get := fun _ => Response false None;
     session_post := fun _ => Response false None |}.

End SupervisorAPI.

(* ================================================================== *)
(** ** Observations on traces *)

Definition is_upload (e : event) : bool :=
  match e with
  | UploadFile _ _ _ _ => true
  | _ => false
  end.

(** The upload calls of a trace, in order. *)
Definition upload_calls (t : trace) : list event := filter is_upload t.

Definition is_upload_of (file : string) (e : event) : bool :=
  match e with
  | UploadFile f _ _ _ => String.eqb f file
  | _ => false
  end.

(** The upload calls made for one local path. *)
Definition uploads_of (file : string) (t : trace) : list event :=
  filter (is_upload_of file) t.

Definition is_getsize (e : event) : bool :=
  match e with
  | GetSize _ _ => true
  | _ => false
  end.

(** ** A concrete installation

    The monitored directory [/backup] of the examples: [a.tar] is not in
    the bucket, [b.tar] is there with the same size, [c.tar] with another
    size; there is a file that is no archive and a subdirectory. *)

Module Scenario.

Definition bucket : S3Bucket :=
  {| bucket_name := "my-backups"; storage_class := "STANDARD_IA" |}.

Definition backup_dir : node :=
  Directory "backup" 4096
    [RegularFile "a.tar" 100;
     RegularFile "b.tar" 200;
     RegularFile "c.tar" 300;
     RegularFile "notes.txt" 7;
     Directory "old" 4096 [RegularFile "d.tar" 50]].

Definition listing : list_response :=
  {| IsTruncated := Some false;
     Contents := Some [ {| Key := "b.tar"; Size := 200; LastModified := 0 |};
                        {| Key := "c.tar"; Size := 250; LastModified := 0 |} ]
  |}.

Definition remote : list remote_object :=
  map to_remote (contents_or_nil listing).

(** A new archive grows by ten bytes a second for three seconds. *)
Definition growth (t : nat) : N := N.of_nat (10 * Nat.min t 3).

(** The provider rejects the upload of [c.tar]. *)
Definition w : world :=
  {| list_objects_v2 := fun _ => inr listing;
     s3_upload_file := fun f =>
       if String.eqb f "/backup/c.tar" then Some S3UploadFailedError
       else None;
     fs := fun p => if String.eqb p "/backup" then Some backup_dir else None;
     getsize := fun _ t => Some (growth t) |}.

(** A file that grows for ever. *)
Definition w_growing : world :=
  {| list_objects_v2 := list_objects_v2 w;
     s3_upload_file := s3_upload_file w;
     fs := fs w;
     getsize := fun _ t => Some (N.of_nat t) |}.

(** The bucket holds more objects than one response carries. *)
Definition w_truncated : world :=
  {| list_objects_v2 := fun _ =>
       inr {| IsTruncated := Some true; Contents := Contents listing |};
     s3_upload_file := s3_upload_file w;
     fs := fs w;
     getsize := getsize w |}.

(** The bucket does not exist. *)
Definition w_no_bucket : world :=
  {| list_objects_v2 := fun _ => inl NoSuchBucket;
     s3_upload_file := s3_upload_file w;
     fs := fs w;
     getsize := getsize w |}.

Definition argv : list string :=
  ["amazon-s3-backup.py"; "/backup"; "my-backups"; "eu-west-1";
   "STANDARD_IA"; "True"].

Definition handler : BackupEventHandler := BackupEventHandler_init bucket.

Definition created (p : string) : fs_event :=
  {| ev_type := Created; src_path := p; is_directory := false |}.

End Scenario.


(* ================================================================== *)
(** ** set_log_level *)

Module Logging.

(** The numeric levels of the [logging] module. *)
Definition NOTSET : Z := 0.

Definition levelno (l : level) : Z :=
  match l with
  | DEBUG => 10
  | INFO => 20
  | WARNING => 30
  | ERROR => 40
  | CRITICAL => 50
  end.

(** A Python [str], as the value of an environment variable is: the
    sequence of its code points. *)
Definition pystr := list N.

(** A string literal of the source, which is all ASCII. *)
Definition literal (s : string) : pystr :=
  map N_of_ascii (list_ascii_of_string s).

(** [str.isspace] of one character, the white space [str.strip] removes:
    U+0009 to U+000D, U+001C to U+0020, U+0085, U+00A0, U+1680, U+2000 to
    U+200A, U+2028, U+2029, U+202F, U+205F and U+3000. *)
Definition is_space (cp : N) : bool :=
  (N.leb 9 cp && N.leb cp 13) || (N.leb 28 cp && N.leb cp 32)
  || N.eqb cp 133 || N.eqb cp 160 || N.eqb cp 5760
  || (N.leb 8192 cp && N.leb cp 8202)
  || N.eqb cp 8232 || N.eqb cp 8233 || N.eqb cp 8239 || N.eqb cp 8287
  || N.eqb cp 12288.

Fixpoint lstrip (s : pystr) : pystr :=
  match s with
  | [] => []
  | cp :: s' => if is_space cp then lstrip s' else s
  end.

Fixpoint rstrip (s : pystr) : pystr :=
  match s with
  | [] => []
  | cp :: s' =>
      match rstrip s' with
      | [] => if is_space cp then [] else [cp]
      | r => cp :: r
      end
  end.

(** [s.strip()] *)
Definition strip (s : pystr) : pystr := rstrip (lstrip s).

(** [a == b] on strings *)
Fixpoint str_eqb (a b : pystr) : bool :=
  match a, b with
  | [], [] => true
  | x :: a', y :: b' => N.eqb x y && str_eqb a' b'
  | _, _ => false
  end.

(** [level_map], the dict literal of the function. *)
Definition level_map : list (pystr * Z) :=
  [(literal "8", NOTSET);
   (literal "7", levelno DEBUG);
   (literal "6", levelno DEBUG);
   (literal "5", levelno INFO);
   (literal "4", levelno INFO);
   (literal "3", levelno WARNING);
   (literal "2", levelno ERROR);
   (literal "1", levelno CRITICAL)].

(** [d.get(key, default)] *)
Fixpoint dict_get (d : list (pystr * Z)) (key : pystr) (default : Z) : Z :=
  match d with
  | [] => default
  | (k, v) :: d' => if str_eqb k key then v else dict_get d' key default
  end.

(** [set_log_level(hass_log_level)]: the level it hands to
    [logger.setLevel].  The argument is [os.environ.get("LOG_LEVEL")],
    [None] when the variable is not set. *)
Definition set_log_level (hass_log_level : option pystr) : Z :=
  let hass_log_level :=
    match hass_log_level with
    | Some [] => Some []            (* the empty string is falsy *)
    | Some s => Some (strip s)
    | None => None
    end in
  match hass_log_level with
  | Some key => dict_get level_map key NOTSET
  | None => NOTSET     (* [None] is no key of the dict *)
  end.

(** The value of [LOG_LEVEL] for a level of the add-on's configuration:
    the digit as a string. *)
Definition digit (n : nat) : pystr := [N.of_nat (48 + n)].

End Logging.

(* ================================================================== *)
(** ** class _BearerAuth *)

Module BearerAuth.

(** The headers of a request, a [CaseInsensitiveDict]: an entry is stored
    under its key in lower case, with the key as it was given. *)
Definition headers := list (string * (string * string)).

(** [h[key]] *)
Fixpoint get (h : headers) (key : string) : option string :=
  match h with
  | [] => None
  | (k, (_, v)) :: h' =>
      if String.eqb k (Str.lower key) then Some v else get h' key
  end.

(** [h[key] = value]: an entry under the same lowered key is replaced. *)
Fixpoint set (h : headers) (key value : string) : headers :=
  match h with
  | [] => [(Str.lower key, (key, value))]
  | (k, kv) :: h' =>
      if String.eqb k (Str.lower key) then (k, (key, value)) :: h'
      else (k, kv) :: set h' key value
  end.

(** [_BearerAuth.__call__]: [r.headers["authorization"] = "Bearer " +
    self.token], and the request is returned. *)
Definition call (token : string) (r_headers : headers) : headers :=
  set r_headers "authorization" ("Bearer " ++ token).

End BearerAuth.

(* ================================================================== *)
(** ** What the reconciler decides, read off the loop body *)

(** Whether the iteration for [file] reaches an [upload_file]. *)
Definition needs_upload (w : world) (monitor_path : string)
    (bucket_contents : list remote_object) (upload_missing_files : bool)
    (file : string) : bool :=
  match lookup_entry w monitor_path file with
  | None => false
  | Some n =>
      match found_in bucket_contents file with
      | found0 :: _ => negb (Z.eqb (Z.of_N (node_size n)) (size found0))
      | [] => upload_missing_files
      end
  end.

(** The provider call [upload_file] makes for a directory entry. *)
Definition upload_call_of (s3_bucket : S3Bucket) (monitor_path file : string)
  : event :=
  UploadFile (Pathlib.join monitor_path file) (bucket_name s3_bucket)
    (Pathlib.name (Pathlib.join monitor_path file)) (storage_class s3_bucket).

(** The upload raises something [upload_file] does not catch. *)
Definition upload_escapes (w : world) (file : string) : bool :=
  match s3_upload_file w file with
  | Some e => negb (is_S3UploadFailedError e)
  | None => false
  end.

Definition is_list_call (e : event) : bool :=
  match e with
  | ListObjectsV2 _ => true
  | _ => false
  end.

Definition is_schedule (e : event) : bool :=
  match e with
  | Schedule _ _ => true
  | _ => false
  end.

Definition is_sleep (e : event) : bool :=
  match e with
  | Sleep _ => true
  | _ => false
  end.

(* ================================================================== *)
(** ** The detector on any sequence of reads *)

(** How an observation of the loop of [process] ends. *)
Inductive polled : Type :=
| Stable (reads_made : nat)      (* the loop was left: the file is released *)
| SizeError (reads_made : nat)   (* a call of [os.path.getsize] raised *)
| Polling.                       (* still in the loop *)

(** The loop of [process] with nothing assumed on the sizes it reads:
    [answers n] is what the call number [n] of [os.path.getsize] returns,
    [None] when it raises, and [n] counts the calls made so far.  The test
    of the [while] takes one answer, the assignment in the body the next
    one, and the sleep follows. *)
Fixpoint poll_reads (fuel : nat) (answers : nat -> option N) (p : string)
    (file_size : Z) (n : nat) : trace * polled :=
  match fuel with
  | O => ([], Polling)
  | S fuel' =>
      match answers n with
      | None => ([], SizeError n)
      | Some current =>
          if negb (Z.eqb file_size (Z.of_N current)) then
            match answers (S n) with
            | None => ([GetSize p current], SizeError (S n))
            | Some file_size' =>
                let (t, r) :=
                  poll_reads fuel' answers p (Z.of_N file_size') (S (S n)) in
                (GetSize p current :: GetSize p file_size' :: Sleep 1 :: t, r)
            end
          else ([GetSize p current], Stable (S n))
      end
  end.

(** ** What the reconciler reports on *)

(** The path a log call of the loop body is about, for the three calls by
    which the body reports what it found for a local file. *)
Definition reported (e : event) : option string :=
  match e with
  | Log DEBUG (MsgSizeMatches local_file _) => Some local_file
  | Log WARNING (MsgSizeDiffers local_file) => Some local_file
  | Log WARNING (MsgNotInS3 local_file) => Some local_file
  | _ => None
  end.

(** The local files a trace reports on, in order. *)
Fixpoint reported_files (t : trace) : list string :=
  match t with
  | [] => []
  | e :: t' =>
      match reported e with
      | Some local_file => local_file :: reported_files t'
      | None => reported_files t'
      end
  end.

(** ** More installations *)

Module Cases.

(** The monitored path is a file, not a directory. *)
Definition w_file : world :=
  {| list_objects_v2 := list_objects_v2 Scenario.w;
     s3_upload_file := s3_upload_file Scenario.w;
     fs := fun p => if String.eqb p "/backup"
                    then Some (RegularFile "backup" 12) else None;
     getsize := getsize Scenario.w |}.

(** The network goes away while [a.tar] is sent. *)
Definition w_offline : world :=
  {| list_objects_v2 := list_objects_v2 Scenario.w;
     s3_upload_file := fun f =>
       if String.eqb f "/backup/a.tar"
       then Some (OtherError "EndpointConnectionError") else None;
     fs := fs Scenario.w;
     getsize := getsize Scenario.w |}.

(** The new archive is removed before the handler looks at it. *)
Definition w_vanished : world :=
  {| list_objects_v2 := list_objects_v2 Scenario.w;
     s3_upload_file := s3_upload_file Scenario.w;
     fs := fs Scenario.w;
     getsize := fun _ _ => None |}.

(** A file that is written while the handler looks at it: the size is 7 at
    the first two calls, 8 at the third, 9 from the fourth on. *)
Definition growing_reads (n : nat) : N :=
  match n with
  | 0 | 1 => 7
  | 2 => 8
  | _ => 9
  end.

(** The bucket is in step with the directory. *)
Definition in_sync : list remote_object :=
  [ {| name := "a.tar"; size := 100; last_modified := 0 |};
    {| name := "b.tar"; size := 200; last_modified := 0 |};
    {| name := "c.tar"; size := 300; last_modified := 0 |};
    {| name := "notes.txt"; size := 7; last_modified := 0 |} ].

Definition local_files : list string :=
  ["a.tar"; "b.tar"; "c.tar"; "notes.txt"].

(** A Supervisor that lists two snapshots and confirms removals. *)
Definition snapshots : SupervisorAPI.pyval :=
  SupervisorAPI.PList
    [SupervisorAPI.PDict [("slug", SupervisorAPI.PStr "abc123")];
     SupervisorAPI.PDict [("slug", SupervisorAPI.PStr "def456")]].

Definition supervisor : SupervisorAPI.session :=
  {| SupervisorAPI.session_get := fun _ =>
       SupervisorAPI.Response true
         (Some (SupervisorAPI.PDict
                  [("result", SupervisorAPI.PStr "ok");
                   ("data", SupervisorAPI.PDict [("snapshots", snapshots)])]));
     SupervisorAPI.session_post := fun _ =>
       SupervisorAPI.Response true
         (Some (SupervisorAPI.PDict
                  [("result", SupervisorAPI.PStr "ok");
                   ("data", SupervisorAPI.PDict [])])) |}.

(** A Supervisor behind a proxy that answers with a page of HTML. *)
Definition supervisor_html : SupervisorAPI.session :=
  {| SupervisorAPI.session_get := fun _ => SupervisorAPI.Response true None;
     SupervisorAPI.session_post := fun _ => SupervisorAPI.Response true None |}.

End Cases.

(* ================================================================== *)
(** * Properties *)

Unset Implicit Arguments.

Lemma upload_calls_app (t1 t2 : trace) :
  upload_calls (t1 ++ t2) = upload_calls t1 ++ upload_calls t2.
Proof. apply filter_app. Qed.

Lemma uploads_of_app (f : string) (t1 t2 : trace) :
  uploads_of f (t1 ++ t2) = uploads_of f t1 ++ uploads_of f t2.
Proof. apply filter_app. Qed.

(** ** Strings and paths *)

Lemma append_assoc (a b c : string) :
  ((a ++ b) ++ c = a ++ (b ++ c))%string.
Proof. induction a as [|x a IH]; simpl; [reflexivity | now rewrite IH]. Qed.

Lemma append_inv_head (p a b : string) :
  (p ++ a = p ++ b)%string -> a = b.
Proof.
  induction p as [|x p IH]; simpl; intros H; [exact H|].
  injection H as H. auto.
Qed.

Lemma split_slash_nonempty (s : string) : Str.split_slash s <> [].
Proof.
  destruct s as [|c s]; simpl; [discriminate|].
  destruct (Ascii.eqb c Str.slash); [discriminate|].
  destruct (Str.split_slash s); discriminate.
Qed.

Lemma split_slash_one (n : string) :
  Str.has_slash n = false -> Str.split_slash n = [n].
Proof.
  induction n as [|c n IH]; simpl; intros H; [reflexivity|].
  apply orb_false_iff in H as [Hc Hn].
  rewrite Hc, (IH Hn). reflexivity.
Qed.

Lemma split_slash_app (p n : string) :
  Str.has_slash n = false ->
  Str.split_slash (p ++ String Str.slash n) = Str.split_slash p ++ [n].
Proof.
  intros Hn. induction p as [|c p IH]; simpl.
  - rewrite (split_slash_one _ Hn). reflexivity.
  - rewrite IH. destruct (Ascii.eqb c Str.slash); [reflexivity|].
    destruct (Str.split_slash p) as [|x xs] eqn:E; [|reflexivity].
    now apply split_slash_nonempty in E.
Qed.

Lemma root_cases (s : string) :
  Pathlib.root s = "" \/ Pathlib.root s = "/" \/ Pathlib.root s = "//".
Proof.
  unfold Pathlib.root.
  destruct s as [|a [|b [|c rest]]]; auto;
    repeat match goal with
           | |- context [Ascii.eqb ?x Str.slash] =>
               destruct (Ascii.eqb x Str.slash)
           end; auto.
Qed.

Lemma dir_prefix_shape (d : string) :
  Pathlib.dir_prefix d = "" \/
  exists q, Pathlib.dir_prefix d = (q ++ String Str.slash "")%string.
Proof.
  unfold Pathlib.dir_prefix.
  destruct (Pathlib.parts d) as [|x xs].
  - destruct (root_cases d) as [-> | [-> | ->]];
      [now left | right; now exists "" | right; now exists "/"].
  - right. eexists. rewrite <- append_assoc. reflexivity.
Qed.

(** A directory entry keeps its name through [Path(d, entry)]: the upload
    key [Path(str(local_file)).name] is the entry's name. *)
Lemma name_join (d n : string) :
  Pathlib.entry_name n = true -> Pathlib.name (Pathlib.join d n) = n.
Proof.
  unfold Pathlib.entry_name. intros H.
  apply andb_true_iff in H as [Hk Hs]. apply negb_true_iff in Hs.
  unfold Pathlib.name, Pathlib.join, Pathlib.parts.
  destruct (dir_prefix_shape d) as [-> | [q ->]].
  - simpl. rewrite (split_slash_one _ Hs). simpl. now rewrite Hk.
  - rewrite append_assoc. simpl.
    rewrite (split_slash_app _ _ Hs), filter_app. simpl. rewrite Hk.
    apply last_last.
Qed.

(** Distinct entries of one directory have distinct paths. *)
Lemma join_inj (d a b : string) :
  Pathlib.join d a = Pathlib.join d b -> a = b.
Proof. apply append_inv_head. Qed.

(** ** Running the monad *)

Ltac run_m :=
  unfold logger, sys_exit, try_except, bind, ret, emit, raise, sleep, running;
  cbn [fst snd app].

Lemma bind_run {A B} (m : M A) (k : A -> M B) (c : nat) :
  bind m k c =
    match m c with
    | (t, Ret a c') => let (t', r') := k a c' in (t ++ t', r')
    | (t, Raise e c') => (t, Raise e c')
    | (t, Running) => (t, Running)
    end.
Proof. unfold bind. destruct (m c) as [t [a c'|e c'|]]; reflexivity. Qed.

Lemma for_each_cons {A} (x : A) (rest : list A) (body : A -> M unit) c :
  for_each (x :: rest) body c =
    match body x c with
    | (t, Ret _ c') =>
        let (t', r') := for_each rest body c' in (t ++ t', r')
    | (t, Raise e c') => (t, Raise e c')
    | (t, Running) => (t, Running)
    end.
Proof. simpl. apply bind_run. Qed.

(** Once the iterations over [pre] have returned, the loop goes on with
    the elements that follow. *)
Lemma for_each_reach {A} (pre post : list A) (body : A -> M unit) c t1 c1 :
  for_each pre body c = (t1, Ret tt c1) ->
  for_each (pre ++ post) body c =
    let (t, r) := for_each post body c1 in (t1 ++ t, r).
Proof.
  revert c t1. induction pre as [|y pre IH]; intros c t1 H.
  - cbn in H. injection H as <- <-. cbn [app].
    destruct (for_each post body c). reflexivity.
  - cbn [app]. rewrite for_each_cons in H. rewrite for_each_cons.
    destruct (body y c) as [t [[] c'|e c'|]]; try discriminate.
    destruct (for_each pre body c') as [t' r'] eqn:E.
    injection H as <- ->. rewrite (IH _ _ E).
    destruct (for_each post body c1). now rewrite app_assoc.
Qed.

(** ** [S3Bucket.upload_file] *)

Section Upload.

Variables (w : world) (self : S3Bucket) (file : string).

Let call : event :=
  UploadFile file (bucket_name self) (Pathlib.name file) (storage_class self).

Lemma upload_file_run c :
  upload_file w self file c =
    match s3_upload_file w file with
    | None =>
        ([Log INFO (MsgUploading file); call;
          Log INFO (MsgUploaded (Pathlib.name file) (bucket_name self)
                      (storage_class self))], Ret tt c)
    | Some e =>
        if is_S3UploadFailedError e
        then ([Log INFO (MsgUploading file); call;
               Log ERROR (MsgUploadError e)], Ret tt c)
        else ([Log INFO (MsgUploading file); call], Raise e c)
    end.
Proof.
  unfold upload_file, call_upload_file. run_m.
  destruct (s3_upload_file w file) as [e|]; [|reflexivity].
  destruct (is_S3UploadFailedError e); reflexivity.
Qed.

(** Whatever the provider answers, one call is made. *)
Lemma upload_file_calls c :
  upload_calls (fst (upload_file w self file c)) = [call].
Proof.
  rewrite upload_file_run.
  destruct (s3_upload_file w file) as [e|]; [|reflexivity].
  destruct (is_S3UploadFailedError e); reflexivity.
Qed.

Lemma upload_file_uploads_of p c :
  uploads_of p (fst (upload_file w self file c)) =
    if String.eqb file p then [call] else [].
Proof.
  rewrite upload_file_run.
  destruct (s3_upload_file w file) as [e|];
    [destruct (is_S3UploadFailedError e)|];
    cbn; destruct (String.eqb file p); reflexivity.
Qed.

Lemma upload_file_clock c t r :
  upload_file w self file c = (t, r) ->
  r = Ret tt c \/ exists e, r = Raise e c.
Proof.
  rewrite upload_file_run.
  destruct (s3_upload_file w file) as [e|];
    [destruct (is_S3UploadFailedError e)|];
    intros H; injection H as <- <-; eauto.
Qed.

End Upload.

(** ** The reconciliation loop *)

Lemma found_in_nil_iff (bucket_contents : list remote_object) (file : string) :
  found_in bucket_contents file = [] <->
  forall r, In r bucket_contents -> name r <> file.
Proof.
  unfold found_in. split.
  - intros H r Hr Hn.
    assert (Hin : In r (filter (fun f => String.eqb (name f) file)
                          bucket_contents)).
    { apply filter_In. split; [exact Hr | now apply String.eqb_eq]. }
    rewrite H in Hin. exact Hin.
  - intros H. induction bucket_contents as [|x xs IH]; [reflexivity|].
    cbn. destruct (String.eqb_spec (name x) file) as [E|_].
    + exfalso. apply (H x); [now left | exact E].
    + apply IH. intros r Hr. apply H. now right.
Qed.

(** [found[0]] is the first object of the listing that bears the name. *)
Lemma found_in_head (bucket_contents : list remote_object) (file : string)
    (found0 : remote_object) (rest : list remote_object) :
  found_in bucket_contents file = found0 :: rest ->
  name found0 = file /\
  exists before after,
    bucket_contents = before ++ found0 :: after /\
    forall r, In r before -> name r <> file.
Proof.
  unfold found_in. revert found0 rest.
  induction bucket_contents as [|x xs IH]; intros found0 rest H;
    [discriminate|].
  cbn in H. destruct (String.eqb_spec (name x) file) as [E|E].
  - injection H as -> _. split; [exact E|].
    exists [], xs. split; [reflexivity | intros r []].
  - destruct (IH _ _ H) as [Hn (before & after & -> & Hb)].
    split; [exact Hn|]. exists (x :: before), after.
    split; [reflexivity|]. intros r [<-|Hr]; auto.
Qed.

(** With the names of a listing pairwise distinct, an object bearing the
    name is the one found. *)
Lemma found_in_unique (bucket_contents : list remote_object) (file : string)
    (r : remote_object) :
  NoDup (map name bucket_contents) ->
  In r bucket_contents -> name r = file ->
  found_in bucket_contents file = [r].
Proof.
  unfold found_in. intros Hnd Hr Hn.
  induction bucket_contents as [|x xs IH]; [destruct Hr|].
  cbn in Hnd. inversion Hnd as [|? ? Hx Hxs]; subst.
  cbn. destruct Hr as [->|Hr].
  - rewrite String.eqb_refl. f_equal.
    apply (found_in_nil_iff xs (name r)). intros y Hy E.
    apply Hx. rewrite <- E. now apply in_map.
  - destruct (String.eqb_spec (name x) (name r)) as [E|_].
    + exfalso. apply Hx. rewrite E. now apply in_map.
    + now apply IH.
Qed.

(** Every name the reconciler enumerates has an entry to [stat]. *)
Lemma enumerated_has_entry (w : world) (d dn : string) (dsz : N)
    (entries : list node) (file : string) :
  fs w d = Some (Directory dn dsz entries) ->
  In file (local_files_of entries) ->
  exists n, lookup_entry w d file = Some n /\ node_name n = file.
Proof.
  intros Hfs Hin. unfold lookup_entry. rewrite Hfs.
  unfold local_files_of in Hin. apply in_map_iff in Hin as (x & Hx & Hf).
  apply filter_In in Hf as [Hf _].
  destruct (find (fun n => String.eqb (node_name n) file) entries)
    as [n|] eqn:E.
  - exists n. split; [reflexivity|].
    apply find_some in E as [_ E]. now apply String.eqb_eq.
  - exfalso. apply (find_none _ _ E) in Hf.
    rewrite Hx, String.eqb_refl in Hf. discriminate.
Qed.

Section Reconcile.

Variables (w : world) (s3_bucket : S3Bucket) (monitor_path : string)
          (bucket_contents : list remote_object)
          (upload_missing_files : bool).

Let body := reconcile_file w s3_bucket monitor_path bucket_contents
              upload_missing_files.
Let loop := reconcile w s3_bucket monitor_path bucket_contents
              upload_missing_files.
Let local_file (file : string) := Pathlib.join monitor_path file.

(** The body, case by case. *)
Lemma reconcile_file_run (file : string) (c : nat) :
  body file c =
    match lookup_entry w monitor_path file with
    | None => ([], Raise (OtherError "FileNotFoundError") c)
    | Some n =>
        match found_in bucket_contents file with
        | found0 :: _ =>
            if Z.eqb (Z.of_N (node_size n)) (size found0) then
              ([Log DEBUG (MsgSizeMatches (local_file file) (node_size n))],
               Ret tt c)
            else
              let (t, r) := upload_file w s3_bucket (local_file file) c in
              (Log WARNING (MsgSizeDiffers (local_file file)) :: t, r)
        | [] =>
            if upload_missing_files then
              let (t, r) := upload_file w s3_bucket (local_file file) c in
              (Log WARNING (MsgNotInS3 (local_file file)) :: t, r)
            else ([Log WARNING (MsgNotInS3 (local_file file))], Ret tt c)
        end
    end.
Proof.
  unfold body, reconcile_file, stat_st_size, local_file.
  destruct (lookup_entry w monitor_path file) as [n|]; [|reflexivity].
  destruct (found_in bucket_contents file) as [|found0 rest].
  - destruct upload_missing_files; [|reflexivity].
    run_m. cbn. destruct (upload_file w s3_bucket _ c). reflexivity.
  - run_m. cbn.
    destruct (Z.eqb (Z.of_N (node_size n)) (size found0)); [reflexivity|].
    destruct (upload_file w s3_bucket _ c). reflexivity.
Qed.

(** The body leaves the clock alone. *)
Lemma reconcile_file_clock (file : string) (c : nat) t r :
  body file c = (t, r) -> r = Ret tt c \/ exists e, r = Raise e c.
Proof.
  rewrite reconcile_file_run.
  destruct (lookup_entry w monitor_path file) as [n|];
    [|intros H; injection H as <- <-; eauto].
  destruct (found_in bucket_contents file) as [|found0 rest].
  - destruct upload_missing_files;
      [|intros H; injection H as <- <-; eauto].
    destruct (upload_file w s3_bucket _ c) as [t' r'] eqn:E.
    intros H; injection H as <- <-. exact (upload_file_clock _ _ _ _ _ _ E).
  - destruct (Z.eqb _ _); [intros H; injection H as <- <-; eauto|].
    destruct (upload_file w s3_bucket _ c) as [t' r'] eqn:E.
    intros H; injection H as <- <-. exact (upload_file_clock _ _ _ _ _ _ E).
Qed.

(** The body uploads nothing but the file it is run on. *)
Lemma reconcile_file_other (file file' : string) (c : nat) :
  file' <> file ->
  uploads_of (local_file file) (fst (body file' c)) = [].
Proof.
  intros Hne. rewrite reconcile_file_run.
  assert (Hp : String.eqb (local_file file') (local_file file) = false).
  { apply String.eqb_neq. intros E. apply Hne.
    exact (join_inj _ _ _ E). }
  assert (Hu : forall c, uploads_of (local_file file)
                 (fst (upload_file w s3_bucket (local_file file') c)) = []).
  { intros c'. rewrite upload_file_uploads_of, Hp. reflexivity. }
  destruct (lookup_entry w monitor_path file') as [n|]; [|reflexivity].
  destruct (found_in bucket_contents file') as [|found0 rest].
  - destruct upload_missing_files; [|reflexivity].
    specialize (Hu c).
    destruct (upload_file w s3_bucket _ c). exact Hu.
  - destruct (Z.eqb _ _); [reflexivity|].
    specialize (Hu c).
    destruct (upload_file w s3_bucket _ c). exact Hu.
Qed.

Lemma loop_for_each (local_files : list string) :
  loop local_files = for_each local_files body.
Proof. reflexivity. Qed.

Lemma reconcile_other (file : string) (local_files : list string) c :
  ~ In file local_files ->
  uploads_of (local_file file) (fst (loop local_files c)) = [].
Proof.
  rewrite loop_for_each.
  revert c. induction local_files as [|x xs IH]; intros c Hnin;
    [reflexivity|].
  rewrite for_each_cons.
  assert (Hx : x <> file) by (intros ->; apply Hnin; now left).
  pose proof (reconcile_file_other file x c Hx) as Hb.
  destruct (body x c) as [t [[] c'|e c'|]]; cbn [fst] in Hb |- *;
    try exact Hb.
  assert (Hxs : ~ In file xs) by (intros H; apply Hnin; now right).
  specialize (IH c' Hxs).
  destruct (for_each xs body c') as [t' r']. cbn [fst] in IH |- *.
  now rewrite uploads_of_app, Hb, IH.
Qed.

(** If the body makes no upload call for [file], neither does the loop,
    whatever it iterates over. *)
Lemma reconcile_none (file : string) :
  (forall c, uploads_of (local_file file) (fst (body file c)) = []) ->
  forall local_files c,
    uploads_of (local_file file) (fst (loop local_files c)) = [].
Proof.
  intros Hb local_files. rewrite loop_for_each.
  induction local_files as [|x xs IH]; intros c; [reflexivity|].
  rewrite for_each_cons.
  assert (Hx : uploads_of (local_file file) (fst (body x c)) = []).
  { destruct (String.eqb_spec x file) as [->|Hne]; [apply Hb|].
    now apply reconcile_file_other. }
  destruct (body x c) as [t [[] c'|e c'|]]; cbn [fst] in Hx |- *;
    try exact Hx.
  specialize (IH c').
  destruct (for_each xs body c') as [t' r']. cbn [fst] in IH |- *.
  now rewrite uploads_of_app, Hx, IH.
Qed.

(** When the loop reaches [file], which it enumerates once, the upload
    calls it makes for the file are those of that one iteration. *)
Lemma reconcile_once (file : string) (pre post : list string) c t1 c1 :
  ~ In file pre -> ~ In file post ->
  loop pre c = (t1, Ret tt c1) ->
  uploads_of (local_file file) (fst (loop (pre ++ file :: post) c)) =
  uploads_of (local_file file) (fst (body file c1)).
Proof.
  intros Hpre Hpost Hrun.
  pose proof (reconcile_other file pre c Hpre) as H1.
  rewrite Hrun in H1. cbn [fst] in H1.
  pose proof (reconcile_other file post c1 Hpost) as H2.
  rewrite loop_for_each in Hrun, H2 |- *.
  rewrite (for_each_reach _ _ _ _ _ _ Hrun), for_each_cons.
  pose proof (reconcile_file_clock file c1) as Hc.
  destruct (body file c1) as [t r].
  destruct (Hc _ _ eq_refl) as [-> | [e ->]]; cbn [fst].
  - destruct (for_each post body c1) as [t' r']. cbn [fst] in H2 |- *.
    now rewrite !uploads_of_app, H1, H2, app_nil_r.
  - now rewrite uploads_of_app, H1, app_nil_l.
Qed.

End Reconcile.

(** ** The three cases of the reconciler *)

(** C1.  A local file whose name is found in the listing, and whose size as
    read by [stat] equals the size of the object found ([found[0]]), causes
    no upload call: the iteration for it only logs at debug level, and the
    whole loop, whatever it enumerates, makes no upload call for the file's
    path.  In a listing whose names are distinct, as a bucket's keys are,
    the object found is any object that bears the name. *)
Theorem C1_equal_size_no_upload
    (w : world) (s3_bucket : S3Bucket) (monitor_path : string)
    (bucket_contents : list remote_object) (upload_missing_files : bool)
    (file : string) (n : node) (found0 : remote_object)
    (rest : list remote_object) :
  lookup_entry w monitor_path file = Some n ->
  found_in bucket_contents file = found0 :: rest ->
  Z.of_N (node_size n) = size found0 ->
  (forall c,
     reconcile_file w s3_bucket monitor_path bucket_contents
       upload_missing_files file c
     = ([Log DEBUG (MsgSizeMatches (Pathlib.join monitor_path file)
                      (node_size n))], Ret tt c)) /\
  (forall local_files c,
     uploads_of (Pathlib.join monitor_path file)
       (fst (reconcile w s3_bucket monitor_path bucket_contents
               upload_missing_files local_files c)) = []) /\
  (NoDup (map name bucket_contents) ->
   forall r, In r bucket_contents -> name r = file -> r = found0).
Proof.
  intros Hn Hf Hsz.
  assert (Hb : forall c,
     reconcile_file w s3_bucket monitor_path bucket_contents
       upload_missing_files file c
     = ([Log DEBUG (MsgSizeMatches (Pathlib.join monitor_path file)
                      (node_size n))], Ret tt c)).
  { intros c. rewrite reconcile_file_run, Hn, Hf.
    apply Z.eqb_eq in Hsz. now rewrite Hsz. }
  split; [exact Hb|]. split.
  - apply reconcile_none. intros c. now rewrite Hb.
  - intros Hnd r Hr Hname.
    rewrite (found_in_unique _ _ _ Hnd Hr Hname) in Hf.
    now injection Hf.
Qed.

Lemma C1_witness :
  uploads_of "/backup/b.tar"
    (fst (reconcile Scenario.w Scenario.bucket "/backup" Scenario.remote true
            ["a.tar"; "b.tar"; "c.tar"; "notes.txt"] 0)) = [].
Proof.
  exact (proj1 (proj2
           (C1_equal_size_no_upload Scenario.w Scenario.bucket "/backup"
              Scenario.remote true "b.tar" (RegularFile "b.tar" 200)
              (to_remote {| Key := "b.tar"; Size := 200;
                            LastModified := 0 |}) []
              eq_refl eq_refl eq_refl)) _ 0).
Defined.

(** C2.  A local file whose name is found in the listing with a size that
    differs from the size read makes the iteration for it place exactly one
    upload call, for the file's path and under the key that is the file's
    name, which is the name of the object found; a loop that reaches the
    file, enumerated once, makes exactly that call for it.  The object
    compared is the first of the listing that bears the name. *)
Theorem C2_size_differs_one_upload
    (w : world) (s3_bucket : S3Bucket) (monitor_path : string)
    (bucket_contents : list remote_object) (upload_missing_files : bool)
    (file : string) (n : node) (found0 : remote_object)
    (rest : list remote_object) :
  let call := UploadFile (Pathlib.join monitor_path file)
                (bucket_name s3_bucket) file (storage_class s3_bucket) in
  Pathlib.entry_name file = true ->
  lookup_entry w monitor_path file = Some n ->
  found_in bucket_contents file = found0 :: rest ->
  Z.of_N (node_size n) <> size found0 ->
  (name found0 = file /\
   exists before after,
     bucket_contents = before ++ found0 :: after /\
     forall r, In r before -> name r <> file) /\
  (forall c,
     upload_calls
       (fst (reconcile_file w s3_bucket monitor_path bucket_contents
               upload_missing_files file c)) = [call]) /\
  (forall pre post c t1 c1,
     ~ In file pre -> ~ In file post ->
     reconcile w s3_bucket monitor_path bucket_contents
       upload_missing_files pre c = (t1, Ret tt c1) ->
     uploads_of (Pathlib.join monitor_path file)
       (fst (reconcile w s3_bucket monitor_path bucket_contents
               upload_missing_files (pre ++ file :: post) c)) = [call]).
Proof.
  intros call Hname Hn Hf Hsz.
  apply Z.eqb_neq in Hsz.
  split; [exact (found_in_head _ _ _ _ Hf)|].
  split.
  - intros c. rewrite reconcile_file_run, Hn, Hf, Hsz.
    pose proof (upload_file_calls w s3_bucket
                  (Pathlib.join monitor_path file) c) as Hu.
    rewrite (name_join _ _ Hname) in Hu.
    destruct (upload_file w s3_bucket _ c). exact Hu.
  - intros pre post c t1 c1 Hpre Hpost Hrun.
    rewrite (reconcile_once _ _ _ _ _ _ _ _ _ _ _ Hpre Hpost Hrun).
    rewrite reconcile_file_run, Hn, Hf, Hsz.
    pose proof (upload_file_uploads_of w s3_bucket
                  (Pathlib.join monitor_path file)
                  (Pathlib.join monitor_path file) c1) as Hu.
    rewrite String.eqb_refl, (name_join _ _ Hname) in Hu.
    destruct (upload_file w s3_bucket _ c1). exact Hu.
Qed.

Lemma C2_witness :
  upload_calls
    (fst (reconcile_file Scenario.w Scenario.bucket "/backup" Scenario.remote
            false "c.tar" 0))
  = [UploadFile "/backup/c.tar" "my-backups" "c.tar" "STANDARD_IA"].
Proof.
  refine (proj1 (proj2 (C2_size_differs_one_upload Scenario.w Scenario.bucket
                  "/backup" Scenario.remote false "c.tar"
                  (RegularFile "c.tar" 300)
                  (to_remote {| Key := "c.tar"; Size := 250;
                                LastModified := 0 |}) []
                  eq_refl eq_refl eq_refl _)) 0).
  cbn. discriminate.
Defined.

(** The flag is true exactly for the spellings of [true]. *)
Lemma parse_upload_missing_files_true (arg : string) :
  parse_upload_missing_files arg = true <-> Str.lower arg = "true".
Proof.
  unfold parse_upload_missing_files.
  destruct (String.eqb_spec (Str.lower arg) "true") as [E|E].
  - split; auto.
  - split; [discriminate | contradiction].
Qed.

(** C3.  For a local file whose name no object of the listing bears, the
    reconciler makes an upload call if and only if the flag is true, and
    the flag, computed from the command line argument, is true exactly
    when the argument in lower case is [true].  With the flag false the
    iteration only logs a warning, and no loop uploads the file; with the
    flag true a loop that reaches the file, enumerated once, makes one
    upload call for it. *)
Theorem C3_missing_upload_iff_flag
    (w : world) (s3_bucket : S3Bucket) (monitor_path : string)
    (bucket_contents : list remote_object) (arg : string)
    (file : string) (n : node) :
  let flag := parse_upload_missing_files arg in
  let local_file := Pathlib.join monitor_path file in
  let call := UploadFile local_file (bucket_name s3_bucket)
                (Pathlib.name local_file) (storage_class s3_bucket) in
  lookup_entry w monitor_path file = Some n ->
  (forall r, In r bucket_contents -> name r <> file) ->
  (flag = true <-> Str.lower arg = "true") /\
  (forall c,
     upload_calls
       (fst (reconcile_file w s3_bucket monitor_path bucket_contents flag
               file c)) = if flag then [call] else []) /\
  (flag = false ->
   (forall c,
      reconcile_file w s3_bucket monitor_path bucket_contents flag file c
      = ([Log WARNING (MsgNotInS3 local_file)], Ret tt c)) /\
   (forall local_files c,
      uploads_of local_file
        (fst (reconcile w s3_bucket monitor_path bucket_contents flag
                local_files c)) = [])) /\
  (flag = true ->
   forall pre post c t1 c1,
     ~ In file pre -> ~ In file post ->
     reconcile w s3_bucket monitor_path bucket_contents flag pre c
     = (t1, Ret tt c1) ->
     uploads_of local_file
       (fst (reconcile w s3_bucket monitor_path bucket_contents flag
               (pre ++ file :: post) c)) = [call]).
Proof.
  intros flag local_file call Hn Hnone.
  apply found_in_nil_iff in Hnone.
  split; [apply parse_upload_missing_files_true|].
  split; [|split].
  - intros c. rewrite reconcile_file_run, Hn, Hnone.
    destruct flag; [|reflexivity].
    pose proof (upload_file_calls w s3_bucket local_file c) as Hu.
    fold local_file. destruct (upload_file w s3_bucket local_file c).
    exact Hu.
  - intros Hflag.
    assert (Hb : forall c,
      reconcile_file w s3_bucket monitor_path bucket_contents flag file c
      = ([Log WARNING (MsgNotInS3 local_file)], Ret tt c)).
    { intros c. now rewrite reconcile_file_run, Hn, Hnone, Hflag. }
    split; [exact Hb|].
    apply reconcile_none. intros c. now rewrite Hb.
  - intros Hflag pre post c t1 c1 Hpre Hpost Hrun.
    unfold local_file at 1.
    rewrite (reconcile_once _ _ _ _ _ _ _ _ _ _ _ Hpre Hpost Hrun).
    rewrite reconcile_file_run, Hn, Hnone, Hflag.
    pose proof (upload_file_uploads_of w s3_bucket local_file local_file c1)
      as Hu.
    rewrite String.eqb_refl in Hu. fold local_file.
    destruct (upload_file w s3_bucket local_file c1). exact Hu.
Qed.

Lemma C3_witness :
  upload_calls
    (fst (reconcile_file Scenario.w Scenario.bucket "/backup" Scenario.remote
            (parse_upload_missing_files "True") "a.tar" 0))
  = [UploadFile "/backup/a.tar" "my-backups" "a.tar" "STANDARD_IA"].
Proof.
  refine (proj1 (proj2 (C3_missing_upload_iff_flag Scenario.w Scenario.bucket
                  "/backup" Scenario.remote "True" "a.tar"
                  (RegularFile "a.tar" 100) eq_refl _)) 0).
  intros r [<-|[<-|[]]]; discriminate.
Defined.

(** ** The stability detector *)

(** The loop only reads sizes and sleeps. *)
Lemma poll_size_no_upload (w : world) (p : string) :
  forall fuel file_size c,
    upload_calls (fst (poll_size fuel w p file_size c)) = [].
Proof.
  induction fuel as [|fuel IH]; intros file_size c; [reflexivity|].
  cbn [poll_size]. unfold os_path_getsize. run_m.
  destruct (getsize w p c) as [n|] eqn:G; [|reflexivity].
  destruct (Z.eqb file_size (Z.of_N n)); cbn; [reflexivity|].
  rewrite G.
  specialize (IH (Z.of_N n) (c + 1)).
  destruct (poll_size fuel w p (Z.of_N n) (c + 1)) as [t r].
  destruct r; exact IH.
Qed.

Section Poll.

Variables (w : world) (p : string) (samples : nat -> N).
Hypothesis sampled : forall t, getsize w p t = Some (samples t).

(** One test of the loop condition. *)
Lemma poll_size_step (fuel : nat) (file_size : Z) (c : nat) :
  poll_size (S fuel) w p file_size c =
    if Z.eqb file_size (Z.of_N (samples c)) then
      ([GetSize p (samples c)], Ret tt c)
    else
      let (t, r) := poll_size fuel w p (Z.of_N (samples c)) (S c) in
      (GetSize p (samples c) :: GetSize p (samples c) :: Sleep 1 :: t, r).
Proof.
  cbn [poll_size]. unfold os_path_getsize. run_m. rewrite sampled.
  destruct (Z.eqb file_size (Z.of_N (samples c))); cbn; [reflexivity|].
  rewrite sampled, Nat.add_1_r.
  destruct (poll_size fuel w p (Z.of_N (samples c)) (S c)) as [t r].
  destruct r; reflexivity.
Qed.

(** Where the loop can stop, and on which reads. *)
Lemma poll_size_ret :
  forall fuel file_size c t k,
    poll_size fuel w p file_size c = (t, Ret tt k) ->
    (file_size = Z.of_N (samples c) /\ k = c /\
     t = [GetSize p (samples c)]) \/
    (file_size <> Z.of_N (samples c) /\ c < k /\
     samples k = samples (k - 1) /\
     (forall j, c < j < k -> samples j <> samples (j - 1)) /\
     exists t', t = t' ++ [GetSize p (samples (k - 1)); Sleep 1;
                            GetSize p (samples k)]).
Proof.
  induction fuel as [|fuel IH]; intros file_size c t k H;
    [discriminate|].
  rewrite poll_size_step in H.
  destruct (Z.eqb_spec file_size (Z.of_N (samples c))) as [E|E].
  - injection H as <- <-. left. auto.
  - right. split; [exact E|].
    destruct (poll_size fuel w p (Z.of_N (samples c)) (S c))
      as [t0 r0] eqn:Hrec.
    injection H as <- ->.
    destruct (IH _ _ _ _ Hrec) as [(Hs & -> & ->) | (Hs & Hlt & Hk & Hj & t' & ->)].
    + apply N2Z.inj in Hs.
      cbn [Nat.sub]. rewrite Nat.sub_0_r.
      repeat split; [lia | now rewrite <- Hs | intros j Hj; lia |].
      exists [GetSize p (samples c)]. rewrite <- Hs. reflexivity.
    + repeat split; [lia | exact Hk | |].
      * intros j Hr. destruct (Nat.eq_dec j (S c)) as [->|Hne].
        -- cbn [Nat.sub]. rewrite Nat.sub_0_r. intros Heq. apply Hs.
           now rewrite Heq.
        -- apply Hj. lia.
      * exists (GetSize p (samples c) :: GetSize p (samples c)
                :: Sleep 1 :: t'). reflexivity.
Qed.

(** The loop stops at the first time at which the size equals the size
    of the second before, given the fuel to get there. *)
Lemma poll_size_total :
  forall d fuel file_size c,
    file_size <> Z.of_N (samples c) ->
    (forall j, c < j < c + S d -> samples j <> samples (j - 1)) ->
    samples (c + S d) = samples (c + d) ->
    S d < fuel ->
    exists t, poll_size fuel w p file_size c = (t, Ret tt (c + S d)).
Proof.
  induction d as [|d IH]; intros fuel file_size c Hne Hj Hk Hfuel.
  - destruct fuel as [|[|fuel]]; try lia.
    rewrite poll_size_step.
    destruct (Z.eqb_spec file_size (Z.of_N (samples c))) as [E|_];
      [contradiction|].
    rewrite poll_size_step.
    replace (c + 1) with (S c) in * by lia.
    replace (c + 0) with c in * by lia.
    rewrite Hk, Z.eqb_refl. eauto.
  - destruct fuel as [|fuel]; [lia|].
    rewrite poll_size_step.
    destruct (Z.eqb_spec file_size (Z.of_N (samples c))) as [E|_];
      [contradiction|].
    destruct (IH fuel (Z.of_N (samples c)) (S c)) as [t Ht].
    + intros E. apply N2Z.inj in E.
      apply (Hj (S c)); [lia|]. cbn [Nat.sub]. now rewrite Nat.sub_0_r.
    + intros j Hr. apply Hj. lia.
    + replace (S c + S d) with (c + S (S d)) by lia.
      replace (S c + d) with (c + S d) by lia. exact Hk.
    + lia.
    + replace (c + S (S d)) with (S c + S d) by lia.
      rewrite Ht. eauto.
Qed.

(** A size that differs at every second from the second before keeps
    the loop going. *)
Lemma poll_size_diverges :
  (forall j, samples (S j) <> samples j) ->
  forall fuel file_size c,
    file_size <> Z.of_N (samples c) ->
    snd (poll_size fuel w p file_size c) = Running.
Proof.
  intros Hch. induction fuel as [|fuel IH]; intros file_size c Hne;
    [reflexivity|].
  rewrite poll_size_step.
  destruct (Z.eqb_spec file_size (Z.of_N (samples c))) as [E|_];
    [contradiction|].
  assert (Hn : Z.of_N (samples c) <> Z.of_N (samples (S c))).
  { intros E. apply N2Z.inj in E. now apply (Hch c). }
  specialize (IH _ _ Hn).
  destruct (poll_size fuel w p (Z.of_N (samples c)) (S c)). exact IH.
Qed.

Lemma minus_one_is_no_size (c : nat) : (-1)%Z <> Z.of_N (samples c).
Proof. lia. Qed.

End Poll.

(** *** Any sequence of reads *)

(** The loop only reads sizes and sleeps, whatever it reads. *)
Lemma poll_reads_no_upload (answers : nat -> option N) (p : string) :
  forall fuel file_size n,
    upload_calls (fst (poll_reads fuel answers p file_size n)) = [].
Proof.
  induction fuel as [|fuel IH]; intros file_size n; [reflexivity|].
  cbn [poll_reads].
  destruct (answers n) as [current|]; [|reflexivity].
  destruct (Z.eqb file_size (Z.of_N current)); cbn [negb]; [reflexivity|].
  destruct (answers (S n)) as [next|]; [|reflexivity].
  specialize (IH (Z.of_N next) (S (S n))).
  destruct (poll_reads fuel answers p (Z.of_N next) (S (S n))). exact IH.
Qed.

(** The loop on a clock, [poll_size], is the loop on the sequence of reads
    in which the test and the assignment of one iteration get the size of
    the same second. *)
Lemma poll_size_as_reads (w : world) (p : string) (c0 : nat) :
  forall fuel file_size i,
    let answers := fun n => getsize w p (c0 + Nat.div2 n) in
    fst (poll_size fuel w p file_size (c0 + i))
    = fst (poll_reads fuel answers p file_size (2 * i)) /\
    match snd (poll_size fuel w p file_size (c0 + i)),
          snd (poll_reads fuel answers p file_size (2 * i)) with
    | Ret _ k, Stable m => m = 2 * (k - c0) + 1
    | Raise _ _, SizeError _ => True
    | Running, Polling => True
    | _, _ => False
    end.
Proof.
  cbn zeta. induction fuel as [|fuel IH]; intros file_size i;
    [split; [reflexivity | exact I]|].
  cbn [poll_size poll_reads]. unfold os_path_getsize. run_m.
  rewrite Nat.div2_double.
  destruct (getsize w p (c0 + i)) as [current|] eqn:G;
    [|split; [reflexivity | exact I]].
  destruct (Z.eqb file_size (Z.of_N current)); cbn [negb].
  - cbn -[Nat.mul Nat.div2]. split; [reflexivity | lia].
  - rewrite Nat.div2_succ_double, G. cbn -[Nat.mul Nat.div2]. rewrite ?G.
    specialize (IH (Z.of_N current) (S i)).
    replace (c0 + S i) with (c0 + i + 1) in IH by lia.
    replace (2 * S i) with (S (S (2 * i))) in IH by lia.
    destruct (poll_size fuel w p (Z.of_N current) (c0 + i + 1))
      as [t r].
    destruct (poll_reads fuel _ p (Z.of_N current) (S (S (2 * i))))
      as [t' r'].
    cbn [fst snd] in IH. destruct IH as [-> IH].
    destruct r; cbn -[Nat.mul Nat.div2]; split; try reflexivity; exact IH.
Qed.

Section PollReads.

Variables (answers : nat -> option N) (reads : nat -> N) (p : string).
Hypothesis answered : forall n, answers n = Some (reads n).

(** One test of the loop condition. *)
Lemma poll_reads_step (fuel : nat) (file_size : Z) (n : nat) :
  poll_reads (S fuel) answers p file_size n =
    if Z.eqb file_size (Z.of_N (reads n)) then
      ([GetSize p (reads n)], Stable (S n))
    else
      let (t, r) :=
        poll_reads fuel answers p (Z.of_N (reads (S n))) (S (S n)) in
      (GetSize p (reads n) :: GetSize p (reads (S n)) :: Sleep 1 :: t, r).
Proof.
  cbn [poll_reads]. rewrite !answered.
  destruct (Z.eqb file_size (Z.of_N (reads n))); reflexivity.
Qed.

(** Where the loop can be left: at a test whose read equals the read the
    body assigned before the sleep, and at the first such test. *)
Lemma poll_reads_stable :
  forall fuel file_size n t m,
    poll_reads fuel answers p file_size n = (t, Stable m) ->
    (file_size = Z.of_N (reads n) /\ m = S n /\
     t = [GetSize p (reads n)]) \/
    (file_size <> Z.of_N (reads n) /\
     exists i,
       1 <= i /\ m = S (n + 2 * i) /\
       reads (n + 2 * i) = reads (n + 2 * i - 1) /\
       (forall j, 1 <= j < i ->
          reads (n + 2 * j) <> reads (n + 2 * j - 1)) /\
       exists t', t = t' ++ [GetSize p (reads (n + 2 * i - 1)); Sleep 1;
                              GetSize p (reads (n + 2 * i))]).
Proof.
  induction fuel as [|fuel IH]; intros file_size n t m H;
    [discriminate|].
  rewrite poll_reads_step in H.
  destruct (Z.eqb_spec file_size (Z.of_N (reads n))) as [E|E].
  - injection H as <- <-. left. auto.
  - right. split; [exact E|].
    destruct (poll_reads fuel answers p (Z.of_N (reads (S n))) (S (S n)))
      as [t0 r0] eqn:Hrec.
    injection H as <- ->.
    destruct (IH _ _ _ _ Hrec)
      as [(Hs & -> & ->) | (Hs & i & Hi & -> & Heq & Hfirst & t' & ->)].
    + apply N2Z.inj in Hs. exists 1.
      replace (n + 2 * 1) with (S (S n)) by lia.
      replace (S (S n) - 1) with (S n) by lia.
      repeat split; auto.
      * intros j Hj. lia.
      * exists [GetSize p (reads n)]. rewrite <- Hs. reflexivity.
    + exists (S i).
      replace (n + 2 * S i) with (S (S n) + 2 * i) by lia.
      repeat split; auto.
      * intros j Hj. destruct (Nat.eq_dec j 1) as [->|Hne].
        -- replace (n + 2 * 1) with (S (S n)) by lia.
           replace (S (S n) - 1) with (S n) by lia.
           intros Heq1. apply Hs. now rewrite Heq1.
        -- replace (n + 2 * j) with (S (S n) + 2 * (j - 1)) by lia.
           apply Hfirst. lia.
      * exists (GetSize p (reads n) :: GetSize p (reads (S n))
                :: Sleep 1 :: t'). reflexivity.
Qed.

(** The loop is left at the first such test, given the fuel to reach
    it. *)
Lemma poll_reads_total :
  forall i fuel file_size n,
    file_size <> Z.of_N (reads n) ->
    (forall j, 1 <= j < S i ->
       reads (n + 2 * j) <> reads (n + 2 * j - 1)) ->
    reads (n + 2 * S i) = reads (n + 2 * S i - 1) ->
    S i < fuel ->
    exists t,
      poll_reads fuel answers p file_size n = (t, Stable (S (n + 2 * S i))).
Proof.
  induction i as [|i IH]; intros fuel file_size n Hne Hfirst Heq Hfuel.
  - destruct fuel as [|[|fuel]]; try lia.
    rewrite poll_reads_step.
    destruct (Z.eqb_spec file_size (Z.of_N (reads n))) as [E|_];
      [contradiction|].
    rewrite poll_reads_step.
    replace (n + 2 * 1) with (S (S n)) in * by lia.
    replace (S (S n) - 1) with (S n) in * by lia.
    rewrite Heq, Z.eqb_refl. eauto.
  - destruct fuel as [|fuel]; [lia|].
    rewrite poll_reads_step.
    destruct (Z.eqb_spec file_size (Z.of_N (reads n))) as [E|_];
      [contradiction|].
    destruct (IH fuel (Z.of_N (reads (S n))) (S (S n))) as [t Ht].
    + intros E. apply N2Z.inj in E.
      apply (Hfirst 1); [lia|].
      replace (n + 2 * 1) with (S (S n)) by lia.
      replace (S (S n) - 1) with (S n) by lia. now rewrite E.
    + intros j Hj.
      replace (S (S n) + 2 * j) with (n + 2 * S j) by lia.
      apply Hfirst. lia.
    + replace (S (S n) + 2 * S i) with (n + 2 * S (S i)) by lia.
      exact Heq.
    + lia.
    + replace (S (S n) + 2 * S i) with (n + 2 * S (S i)) in Ht by lia.
      rewrite Ht. eauto.
Qed.

(** Reads that differ each from the one before keep the loop going. *)
Lemma poll_reads_diverges :
  (forall k, reads (S k) <> reads k) ->
  forall fuel file_size n,
    file_size <> Z.of_N (reads n) ->
    snd (poll_reads fuel answers p file_size n) = Polling.
Proof.
  intros Hch. induction fuel as [|fuel IH]; intros file_size n Hne;
    [reflexivity|].
  rewrite poll_reads_step.
  destruct (Z.eqb_spec file_size (Z.of_N (reads n))) as [E|_];
    [contradiction|].
  assert (Hn : Z.of_N (reads (S n)) <> Z.of_N (reads (S (S n)))).
  { intros E. apply N2Z.inj in E. now apply (Hch (S n)). }
  specialize (IH _ _ Hn).
  destruct (poll_reads fuel answers p (Z.of_N (reads (S n))) (S (S n))).
  exact IH.
Qed.

End PollReads.

(** C4, as the claim words it, fails.  On the reads 7, 7, 8, 9, 9 the
    detector releases the file at the fifth read, the first that equals
    the read made before the sleep it follows.  That is not the first
    position at which a read equals the one before it: the second read
    already equals the first, but no sleep separates them and the loop
    does not compare them.  Nor do the reads taken once a second at the
    loop's test (7, 8, 9) ever repeat. *)
Lemma C4_counterexample :
  poll_reads 9 (fun n => Some (Cases.growing_reads n)) "/backup/new.tar"
    (-1) 0
  = ([GetSize "/backup/new.tar" 7; GetSize "/backup/new.tar" 7; Sleep 1;
      GetSize "/backup/new.tar" 8; GetSize "/backup/new.tar" 9; Sleep 1;
      GetSize "/backup/new.tar" 9], Stable 5) /\
  Cases.growing_reads 1 = Cases.growing_reads 0 /\
  Cases.growing_reads 2 <> Cases.growing_reads 0 /\
  Cases.growing_reads 4 <> Cases.growing_reads 2.
Proof. repeat split; discriminate. Qed.

(** C4, amended.  For any sequence of size reads, the detector is left
    only at a test of the loop whose read equals the read the body
    assigned just before the preceding sleep, and at the first such test:
    its last two reads are equal and the one-second sleep lies between
    them.  It is left there, given the fuel to reach it.  The read of a
    test is never compared with the read of the assignment that follows it
    without a sleep.  When every read differs from the read before it, the
    loop is still running whatever the fuel.  The loop itself makes no
    upload call. *)
Theorem C4_stable_at_first_equal_reads_across_a_sleep
    (answers : nat -> option N) (reads : nat -> N) (p : string) :
  (forall n, answers n = Some (reads n)) ->
  (forall fuel t m,
     poll_reads fuel answers p (-1) 0 = (t, Stable m) ->
     exists i,
       1 <= i /\ m = 2 * i + 1 /\
       reads (2 * i) = reads (2 * i - 1) /\
       (forall j, 1 <= j < i -> reads (2 * j) <> reads (2 * j - 1)) /\
       upload_calls t = [] /\
       exists t', t = t' ++ [GetSize p (reads (2 * i - 1)); Sleep 1;
                              GetSize p (reads (2 * i))]) /\
  (forall i,
     1 <= i -> reads (2 * i) = reads (2 * i - 1) ->
     (forall j, 1 <= j < i -> reads (2 * j) <> reads (2 * j - 1)) ->
     forall fuel, i < fuel ->
     exists t, poll_reads fuel answers p (-1) 0 = (t, Stable (2 * i + 1))) /\
  ((forall n, reads (S n) <> reads n) ->
   forall fuel, snd (poll_reads fuel answers p (-1) 0) = Polling).
Proof.
  intros Ha.
  assert (Hstart : (-1)%Z <> Z.of_N (reads 0)) by lia.
  split; [|split].
  - intros fuel t m H.
    pose proof (poll_reads_no_upload answers p fuel (-1)%Z 0) as Hu.
    rewrite H in Hu. cbn [fst] in Hu.
    destruct (poll_reads_stable answers reads p Ha _ _ _ _ _ H)
      as [(E & _) | (_ & i & Hi & Hm & Heq & Hfirst & Ht)];
      [contradiction|].
    exists i. cbn [Nat.add] in *. repeat split; auto. lia.
  - intros i Hi Heq Hfirst fuel Hfuel.
    destruct i as [|i]; [lia|].
    destruct (poll_reads_total answers reads p Ha i fuel (-1)%Z 0
                Hstart Hfirst Heq Hfuel) as [t Ht].
    exists t. rewrite Ht. do 2 f_equal. lia.
  - intros Hch fuel.
    now apply (poll_reads_diverges answers reads p Ha Hch).
Qed.

Lemma C4_witness :
  (exists t,
     poll_reads 9 (fun n => Some (Cases.growing_reads n)) "/backup/new.tar"
       (-1) 0 = (t, Stable 5)) /\
  snd (poll_reads 50 (fun n => Some (N.of_nat n)) "/backup/new.tar" (-1) 0)
  = Polling.
Proof.
  split.
  - refine (proj1 (proj2 (C4_stable_at_first_equal_reads_across_a_sleep
              (fun n => Some (Cases.growing_reads n)) Cases.growing_reads
              "/backup/new.tar" (fun n => eq_refl)))
              2 _ eq_refl _ 9 _).
    + lia.
    + intros j Hj. assert (Hc : j = 1) by lia. subst j. discriminate.
    + lia.
  - refine (proj2 (proj2 (C4_stable_at_first_equal_reads_across_a_sleep
              (fun n => Some (N.of_nat n)) N.of_nat "/backup/new.tar"
              (fun n => eq_refl))) _ 50).
    intros n. lia.
Defined.

(** ** The event handler *)

Lemma process_run (fuel : nat) (w : world) (self : BackupEventHandler)
    (event : fs_event) (c : nat) :
  process fuel w self event c =
    match poll_size fuel w (src_path event) (-1) c with
    | (t, Ret _ k) =>
        let (t', r') := upload_file w (s3_bucket self) (src_path event) k in
        (Log INFO (MsgProcessing (src_path event)) :: t ++ t', r')
    | (t, Raise e k) =>
        (Log INFO (MsgProcessing (src_path event)) :: t, Raise e k)
    | (t, Running) =>
        (Log INFO (MsgProcessing (src_path event)) :: t, Running)
    end.
Proof.
  unfold process. run_m.
  destruct (poll_size fuel w (src_path event) (-1) c) as [t [[] k|e k|]];
    try reflexivity.
  destruct (upload_file w (s3_bucket self) (src_path event) k). reflexivity.
Qed.

Lemma dispatch_run (fuel : nat) (w : world) (self : BackupEventHandler)
    (event : fs_event) (c : nat) :
  dispatch fuel w self event c =
    if matches self (src_path event) then
      match ev_type event with
      | Created => process fuel w self event c
      | _ => ([], Ret tt c)
      end
    else ([], Ret tt c).
Proof.
  unfold dispatch, on_created.
  destruct (matches self (src_path event)); [|reflexivity].
  destruct (ev_type event); reflexivity.
Qed.

(** An event never causes more than one upload call, and the call is for
    the event's path. *)
Lemma process_upload_calls (fuel : nat) (w : world)
    (self : BackupEventHandler) (event : fs_event) (c : nat) :
  let call := UploadFile (src_path event) (bucket_name (s3_bucket self))
                (Pathlib.name (src_path event))
                (storage_class (s3_bucket self)) in
  upload_calls (fst (process fuel w self event c)) =
    match snd (poll_size fuel w (src_path event) (-1) c) with
    | Ret _ _ => [call]
    | _ => []
    end.
Proof.
  intros call. rewrite process_run.
  pose proof (poll_size_no_upload w (src_path event) fuel (-1)%Z c) as Hp.
  destruct (poll_size fuel w (src_path event) (-1) c) as [t [[] k|e k|]];
    cbn [fst snd] in *.
  - pose proof (upload_file_calls w (s3_bucket self) (src_path event) k)
      as Hu.
    destruct (upload_file w (s3_bucket self) (src_path event) k) as [t' r'].
    cbn [fst] in *.
    change (upload_calls ([Log INFO (MsgProcessing (src_path event))]
                            ++ t ++ t') = [call]).
    now rewrite !upload_calls_app, Hp, Hu.
  - exact Hp.
  - exact Hp.
Qed.

(** C6.  A creation event whose path matches none of the handler's
    patterns ([foo.txt] for one) triggers nothing: no size is read, nothing
    is uploaded.  A creation event whose path matches ([backup.tar] for
    one), for a file whose size settles, triggers exactly one upload call,
    for that path, and the call comes after the two equal reads of the
    detector; as long as the detector has not returned, no upload call has
    been made. *)
Theorem C6_watch_event_upload
    (w : world) (self : BackupEventHandler) (event : fs_event)
    (samples : nat -> N) :
  let p := src_path event in
  let call := UploadFile p (bucket_name (s3_bucket self)) (Pathlib.name p)
                (storage_class (s3_bucket self)) in
  (matches self p = false ->
   forall fuel c, dispatch fuel w self event c = ([], Ret tt c)) /\
  (matches self p = true -> ev_type event = Created ->
   (forall t, getsize w p t = Some (samples t)) ->
   forall c k,
     c < k -> samples k = samples (k - 1) ->
     (forall j, c < j < k -> samples j <> samples (j - 1)) ->
     forall fuel, k - c < fuel ->
     exists t_reads t_upload r,
       dispatch fuel w self event c
       = (Log INFO (MsgProcessing p)
            :: (t_reads ++ [GetSize p (samples (k - 1)); Sleep 1;
                            GetSize p (samples k)]) ++ t_upload, r) /\
       upload_calls t_reads = [] /\
       upload_calls t_upload = [call] /\
       upload_calls (fst (dispatch fuel w self event c)) = [call]) /\
  (forall fuel c,
     snd (dispatch fuel w self event c) = Running ->
     upload_calls (fst (dispatch fuel w self event c)) = []) /\
  (regexes self = BACKUP_REGEX ->
   matches self "foo.txt" = false /\ matches self "backup.tar" = true /\
   matches self "/backup/backup.tar" = true).
Proof.
  intros p call. split; [|split; [|split]].
  - intros Hm fuel c. rewrite dispatch_run. fold p. now rewrite Hm.
  - intros Hm Hty Hs c k Hlt Hk Hj fuel Hfuel.
    assert (Ht : exists t, poll_size fuel w p (-1) c = (t, Ret tt k)).
    { destruct k as [|k]; [lia|].
      replace (S k) with (c + S (k - c)) in * by lia.
      apply (poll_size_total w p samples Hs);
        [apply minus_one_is_no_size | exact Hj | | lia].
      rewrite Hk. f_equal. lia. }
    destruct Ht as [t Ht].
    pose proof (poll_size_no_upload w p fuel (-1)%Z c) as Hnu.
    rewrite Ht in Hnu. cbn [fst] in Hnu.
    destruct (poll_size_ret w p samples Hs _ _ _ _ _ Ht)
      as [(E & _) | (_ & _ & _ & _ & t' & ->)];
      [exfalso; exact (minus_one_is_no_size samples c E)|].
    pose proof (upload_file_calls w (s3_bucket self) p k) as Hu.
    rewrite dispatch_run. fold p. rewrite Hm, Hty, process_run. fold p.
    rewrite Ht.
    destruct (upload_file w (s3_bucket self) p k) as [t_up r] eqn:Eu.
    cbn [fst] in Hu. exists t', t_up, r.
    rewrite upload_calls_app in Hnu.
    apply app_eq_nil in Hnu as [Hnu Hlast].
    repeat split; auto.
    cbn [fst].
    change (upload_calls ([Log INFO (MsgProcessing p)]
              ++ (t' ++ [GetSize p (samples (k - 1)); Sleep 1;
                         GetSize p (samples k)]) ++ t_up) = [call]).
    now rewrite !upload_calls_app, Hnu, Hlast, Hu.
  - intros fuel c. rewrite dispatch_run. fold p.
    destruct (matches self p); [|discriminate].
    destruct (ev_type event); try discriminate.
    rewrite process_upload_calls. fold p.
    rewrite process_run. fold p.
    destruct (poll_size fuel w p (-1) c) as [t [[] k|e k|]];
      cbn [fst snd]; try reflexivity.
    destruct (upload_file w (s3_bucket self) p k) as [t' r'] eqn:Eu.
    cbn [snd]. intros ->.
    destruct (upload_file_clock _ _ _ _ _ _ Eu) as [?|[? ?]]; discriminate.
  - intros Hre. unfold matches. rewrite Hre.
    destruct (case_sensitive self); repeat split; reflexivity.
Qed.

Lemma C6_witness :
  dispatch 9 Scenario.w Scenario.handler (Scenario.created "foo.txt") 0
  = ([], Ret tt 0) /\
  upload_calls
    (fst (dispatch 9 Scenario.w Scenario.handler
            (Scenario.created "/backup/backup.tar") 0))
  = [UploadFile "/backup/backup.tar" "my-backups" "backup.tar" "STANDARD_IA"].
Proof.
  split.
  - exact (proj1 (C6_watch_event_upload Scenario.w Scenario.handler
                    (Scenario.created "foo.txt") Scenario.growth)
             eq_refl 9 0).
  - destruct (proj1 (proj2 (C6_watch_event_upload Scenario.w Scenario.handler
                    (Scenario.created "/backup/backup.tar") Scenario.growth))
                eq_refl eq_refl (fun t => eq_refl) 0 4) with (fuel := 9)
      as (t_reads & t_upload & r & _ & _ & _ & H).
    + lia.
    + reflexivity.
    + intros j Hj. assert (Hc : j = 1 \/ j = 2 \/ j = 3) by lia.
      destruct Hc as [-> | [-> | ->]]; discriminate.
    + cbn. lia.
    + exact H.
Defined.

(** ** Upload failures *)

Lemma observer_thread_cons (fuel : nat) (w : world)
    (self : BackupEventHandler) (d : string) (recursive : bool)
    (event : fs_event) (events : list fs_event) (c : nat) t k :
  (if observed recursive d (src_path event)
   then dispatch fuel w self event else ret tt) c = (t, Ret tt k) ->
  observer_thread fuel w self d recursive (event :: events) c =
    (t ++ fst (observer_thread fuel w self d recursive events k),
     snd (observer_thread fuel w self d recursive events k)).
Proof.
  intros H. unfold observer_thread. rewrite for_each_cons, H.
  destruct (for_each events _ k). reflexivity.
Qed.

(** C7.  When the provider fails the upload of a file
    ([S3UploadFailedError]), [upload_file] makes its one call, logs the
    error and returns: it raises nothing and calls no second time.  The
    reconciliation loop then goes on with the files that follow, and the
    observer's thread with the events that follow. *)
Theorem C7_upload_failure_not_fatal
    (w : world) (self : S3Bucket) (file : string) :
  s3_upload_file w file = Some S3UploadFailedError ->
  (forall c,
     upload_file w self file c
     = ([Log INFO (MsgUploading file);
         UploadFile file (bucket_name self) (Pathlib.name file)
           (storage_class self);
         Log ERROR (MsgUploadError S3UploadFailedError)], Ret tt c)) /\
  (forall monitor_path bucket_contents flag entry n rest c,
     Pathlib.join monitor_path entry = file ->
     lookup_entry w monitor_path entry = Some n ->
     exists t,
       reconcile_file w self monitor_path bucket_contents flag entry c
       = (t, Ret tt c) /\
       List.length (upload_calls t) <= 1 /\
       reconcile w self monitor_path bucket_contents flag (entry :: rest) c
       = (t ++ fst (reconcile w self monitor_path bucket_contents flag
                      rest c),
          snd (reconcile w self monitor_path bucket_contents flag rest c)))
  /\
  (forall handler event events d recursive fuel c t_reads k,
     s3_bucket handler = self -> src_path event = file ->
     poll_size fuel w file (-1) c = (t_reads, Ret tt k) ->
     exists t k',
       (if observed recursive d (src_path event)
        then dispatch fuel w handler event else ret tt) c = (t, Ret tt k') /\
       List.length (upload_calls t) <= 1 /\
       observer_thread fuel w handler d recursive (event :: events) c
       = (t ++ fst (observer_thread fuel w handler d recursive events k'),
          snd (observer_thread fuel w handler d recursive events k'))).
Proof.
  intros Hfail.
  assert (Hup : forall c,
     upload_file w self file c
     = ([Log INFO (MsgUploading file);
         UploadFile file (bucket_name self) (Pathlib.name file)
           (storage_class self);
         Log ERROR (MsgUploadError S3UploadFailedError)], Ret tt c)).
  { intros c. now rewrite upload_file_run, Hfail. }
  split; [exact Hup|]. split.
  - intros monitor_path bucket_contents flag entry n rest c Hjoin Hn.
    assert (Hb : exists t,
       reconcile_file w self monitor_path bucket_contents flag entry c
       = (t, Ret tt c) /\ List.length (upload_calls t) <= 1).
    { rewrite reconcile_file_run, Hn, Hjoin.
      destruct (found_in bucket_contents entry) as [|found0 more].
      - destruct flag; [rewrite Hup|]; eexists; split;
          try reflexivity; cbn; lia.
      - destruct (Z.eqb _ _); [|rewrite Hup]; eexists; split;
          try reflexivity; cbn; lia. }
    destruct Hb as (t & Hb & Hlen). exists t.
    repeat split; auto.
    unfold reconcile. rewrite for_each_cons. unfold reconcile in Hb.
    rewrite Hb. destruct (for_each rest _ c). reflexivity.
  - intros handler event events d recursive fuel c t_reads k Hs3 Hsrc Hpoll.
    assert (Hd : exists t k',
       (if observed recursive d (src_path event)
        then dispatch fuel w handler event else ret tt) c = (t, Ret tt k') /\
       List.length (upload_calls t) <= 1).
    { destruct (observed recursive d (src_path event));
        [|exists [], c; split; [reflexivity | cbn; lia]].
      rewrite dispatch_run.
      destruct (matches handler (src_path event));
        [|exists [], c; split; [reflexivity | cbn; lia]].
      destruct (ev_type event);
        try (exists [], c; split; [reflexivity | cbn; lia]).
      pose proof (process_upload_calls fuel w handler event c) as Hc.
      rewrite process_run in *. rewrite Hsrc, Hs3 in *.
      rewrite Hpoll in *. rewrite Hup in *. cbn [fst snd] in Hc.
      eexists _, k. split; [reflexivity|]. rewrite Hc. cbn. lia. }
    destruct Hd as (t & k' & Hd & Hlen). exists t, k'.
    repeat split; auto.
    now apply observer_thread_cons.
Qed.

Lemma C7_witness :
  upload_file Scenario.w Scenario.bucket "/backup/c.tar" 0
  = ([Log INFO (MsgUploading "/backup/c.tar");
      UploadFile "/backup/c.tar" "my-backups" "c.tar" "STANDARD_IA";
      Log ERROR (MsgUploadError S3UploadFailedError)], Ret tt 0).
Proof.
  exact (proj1 (C7_upload_failure_not_fatal Scenario.w Scenario.bucket
                  "/backup/c.tar" eq_refl) 0).
Defined.

(** ** Listing the bucket *)

Lemma list_bucket_run (w : world) (self : S3Bucket) (c : nat) :
  list_bucket w self c =
    match list_objects_v2 w (bucket_name self) with
    | inl e =>
        if is_NoSuchBucket e
        then ([ListObjectsV2 (bucket_name self); Log ERROR (MsgListError e)],
              Raise Exception_ c)
        else ([ListObjectsV2 (bucket_name self)], Raise e c)
    | inr response =>
        (ListObjectsV2 (bucket_name self)
           :: match IsTruncated response with
              | Some true => [Log WARNING MsgTruncated]
              | _ => []
              end,
         Ret (map to_remote (contents_or_nil response)) c)
    end.
Proof.
  unfold list_bucket, call_list_objects_v2. run_m.
  destruct (list_objects_v2 w (bucket_name self)) as [e|response]; cbn.
  - destruct (is_NoSuchBucket e); reflexivity.
  - destruct (IsTruncated response) as [[|]|]; reflexivity.
Qed.

(** C5, as the claim words it, fails: on a truncated response
    [list_bucket] raises nothing; it returns the objects of the response. *)
Lemma C5_counterexample :
  list_objects_v2 Scenario.w_truncated (bucket_name Scenario.bucket)
  = inr {| IsTruncated := Some true;
           Contents := Contents Scenario.listing |} /\
  list_bucket Scenario.w_truncated Scenario.bucket 0
  = ([ListObjectsV2 "my-backups"; Log WARNING MsgTruncated],
     Ret Scenario.remote 0) /\
  ~ (exists e k,
       snd (list_bucket Scenario.w_truncated Scenario.bucket 0) = Raise e k).
Proof.
  split; [reflexivity|]. split; [reflexivity|].
  intros (e & k & H). discriminate.
Qed.

(** C5, amended.  When the listing response is truncated, [list_bucket]
    logs a warning and returns to its caller the objects the response
    carries, a partial set; it raises no error. *)
Theorem C5_truncated_listing_warns_and_returns
    (w : world) (self : S3Bucket) (response : list_response) (c : nat) :
  list_objects_v2 w (bucket_name self) = inr response ->
  IsTruncated response = Some true ->
  list_bucket w self c
  = ([ListObjectsV2 (bucket_name self); Log WARNING MsgTruncated],
     Ret (map to_remote (contents_or_nil response)) c).
Proof.
  intros Hl Ht. now rewrite list_bucket_run, Hl, Ht.
Qed.

Lemma C5_witness :
  list_bucket Scenario.w_truncated Scenario.bucket 3
  = ([ListObjectsV2 "my-backups"; Log WARNING MsgTruncated],
     Ret Scenario.remote 3).
Proof.
  exact (C5_truncated_listing_warns_and_returns Scenario.w_truncated
           Scenario.bucket _ 3 eq_refl eq_refl).
Defined.

(** ** The driver *)

(** The run of [main] once the arguments are accepted, the monitored
    directory is there and the listing has come back: the reconciler goes
    over the directory's regular files and, if it comes to its end, the
    watcher is scheduled and started. *)
Lemma main_reconciles (w : world) (a0 monitor_path b region sc arg : string)
    (dn : string) (dsz : N) (entries : list node)
    (response : list_response) (c : nat) :
  fs w monitor_path = Some (Directory dn dsz entries) ->
  list_objects_v2 w b = inr response ->
  let bucket := {| bucket_name := b; storage_class := sc |} in
  main w [a0; monitor_path; b; region; sc; arg] c =
    let (t, r) :=
      reconcile w bucket monitor_path
        (map to_remote (contents_or_nil response))
        (parse_upload_missing_files arg) (local_files_of entries) c in
    (Log DEBUG MsgCreatingClient
       :: fst (list_bucket w bucket c)
       ++ t
       ++ match r with
          | Ret _ _ => [Log INFO (MsgMonitoring monitor_path);
                        Schedule monitor_path true; ObserverStart]
          | _ => []
          end,
     match r with
     | Ret _ _ => Running
     | _ => r
     end).
Proof.
  intros Hfs Hl bucket. subst bucket.
  unfold main, S3Bucket_init, path_exists, iterdir, FileWatcher_run,
    FileWatcher_start, FileWatcher_schedule, FileWatcher_init.
  cbn [List.length Nat.eqb negb]. rewrite Hfs. run_m.
  rewrite !list_bucket_run. cbn [bucket_name]. rewrite Hl. cbn.
  destruct (reconcile w _ monitor_path _ _ _ c) as [t [[] k|e k|]];
    cbn; rewrite ?app_nil_r; reflexivity.
Qed.

(** C8.  The three fatal conditions of the start.  When the listing call
    raises an exception, [main] ends in [SystemExit(1)], exit status 1,
    with nothing in its trace but the creation of the client and the
    listing call (and its error log): no file was examined, no watch
    scheduled.  With a number of arguments other than six ([argv[0]] and
    five positional ones), [main] logs one critical message and falls off
    its end: no [sys.exit], the status is that of a normal end.  When the
    monitored path does not exist, [main] logs a critical message and
    ends likewise; nothing was listed, reconciled or watched. *)
Theorem C8_fatal_startup_conditions (w : world) (c : nat) :
  (forall a0 monitor_path b region sc arg e,
     path_exists w monitor_path = true ->
     list_objects_v2 w b = inl e -> is_Exception e = true ->
     main w [a0; monitor_path; b; region; sc; arg] c
     = (Log DEBUG MsgCreatingClient :: ListObjectsV2 b
          :: (if is_NoSuchBucket e then [Log ERROR (MsgListError e)] else []),
        Raise (SystemExit 1) c) /\
     exit_status (snd (main w [a0; monitor_path; b; region; sc; arg] c))
     = Some 1%Z) /\
  (forall argv,
     List.length argv <> 6 ->
     main w argv c = ([Log CRITICAL (MsgBadArgs argv)], Ret tt c) /\
     exit_status (snd (main w argv c)) = Some 0%Z) /\
  (forall a0 monitor_path b region sc arg,
     path_exists w monitor_path = false ->
     main w [a0; monitor_path; b; region; sc; arg] c
     = ([Log DEBUG MsgCreatingClient;
         Log CRITICAL (MsgNoMonitorPath monitor_path)], Ret tt c) /\
     exit_status (snd (main w [a0; monitor_path; b; region; sc; arg] c))
     = Some 0%Z).
Proof.
  split; [|split].
  - intros a0 monitor_path b region sc arg e Hex Hl He.
    assert (Hm : main w [a0; monitor_path; b; region; sc; arg] c
     = (Log DEBUG MsgCreatingClient :: ListObjectsV2 b
          :: (if is_NoSuchBucket e then [Log ERROR (MsgListError e)] else []),
        Raise (SystemExit 1) c)).
    { unfold main, S3Bucket_init.
      cbn [List.length Nat.eqb negb]. run_m. rewrite Hex.
      rewrite list_bucket_run. cbn [bucket_name]. rewrite Hl.
      destruct e; cbn in He |- *; try reflexivity; discriminate. }
    now rewrite Hm.
  - intros argv Hlen.
    assert (Hm : main w argv c = ([Log CRITICAL (MsgBadArgs argv)], Ret tt c)).
    { unfold main. apply Nat.eqb_neq in Hlen. now rewrite Hlen. }
    now rewrite Hm.
  - intros a0 monitor_path b region sc arg Hex.
    assert (Hm : main w [a0; monitor_path; b; region; sc; arg] c
     = ([Log DEBUG MsgCreatingClient;
         Log CRITICAL (MsgNoMonitorPath monitor_path)], Ret tt c)).
    { unfold main, S3Bucket_init.
      cbn [List.length Nat.eqb negb]. run_m. now rewrite Hex. }
    now rewrite Hm.
Qed.

Lemma C8_witness :
  main Scenario.w_no_bucket Scenario.argv 0
  = ([Log DEBUG MsgCreatingClient; ListObjectsV2 "my-backups";
      Log ERROR (MsgListError NoSuchBucket)], Raise (SystemExit 1) 0) /\
  main Scenario.w ["amazon-s3-backup.py"; "/backup"] 0
  = ([Log CRITICAL (MsgBadArgs ["amazon-s3-backup.py"; "/backup"])],
     Ret tt 0) /\
  main Scenario.w ["amazon-s3-backup.py"; "/nowhere"; "my-backups";
                   "eu-west-1"; "STANDARD_IA"; "true"] 0
  = ([Log DEBUG MsgCreatingClient; Log CRITICAL (MsgNoMonitorPath "/nowhere")],
     Ret tt 0).
Proof.
  split; [|split].
  - exact (proj1 (proj1 (C8_fatal_startup_conditions Scenario.w_no_bucket 0)
             "amazon-s3-backup.py" "/backup" "my-backups" "eu-west-1"
             "STANDARD_IA" "True" NoSuchBucket eq_refl eq_refl eq_refl)).
  - refine (proj1 (proj1 (proj2 (C8_fatal_startup_conditions Scenario.w 0))
                     _ _)).
    cbn. lia.
  - exact (proj1 (proj2 (proj2 (C8_fatal_startup_conditions Scenario.w 0))
             "amazon-s3-backup.py" "/nowhere" "my-backups" "eu-west-1"
             "STANDARD_IA" "true" eq_refl)).
Defined.

(** ** What the pattern matches *)

Lemma re_match_plus_cons (ic : bool) (p : Regex.pattern) (c : ascii)
    (s : string) :
  Regex.re_match ic (Regex.AnyPlus :: p) (String c s) =
    negb (Ascii.eqb c Str.newline)
    && (Regex.re_match ic p s || Regex.re_match ic (Regex.AnyPlus :: p) s).
Proof. reflexivity. Qed.

(** [.+] followed by [p]: a non-empty stem free of newlines, then a match
    of [p]. *)
Lemma re_match_plus (ic : bool) (p : Regex.pattern) (s : string) :
  Regex.re_match ic (Regex.AnyPlus :: p) s = true <->
  exists stem rest,
    s = (stem ++ rest)%string /\ stem <> "" /\
    Str.no_newline stem = true /\ Regex.re_match ic p rest = true.
Proof.
  induction s as [|c s IH].
  - split; [discriminate|].
    intros (stem & rest & E & Hne & _). destruct stem; [contradiction|].
    discriminate.
  - rewrite re_match_plus_cons, andb_true_iff, orb_true_iff, IH.
    split.
    + intros [Hc [Hp | (stem & rest & -> & _ & Hnl & Hp)]].
      * exists (String c ""), s. cbn [String.append Str.no_newline].
        rewrite Hc. repeat split; auto. discriminate.
      * exists (String c stem), rest. cbn [String.append Str.no_newline].
        rewrite Hc, Hnl. repeat split; auto. discriminate.
    + intros (stem & rest & E & Hne & Hnl & Hp).
      destruct stem as [|c' stem]; [contradiction|].
      cbn [String.append Str.no_newline] in E, Hnl. injection E as <- ->.
      apply andb_true_iff in Hnl as [Hc Hnl]. split; [exact Hc|].
      destruct stem as [|c'' stem]; [now left|].
      right. exists (String c'' stem), rest.
      repeat split; auto. discriminate.
Qed.

(** The literal tail [\.tar$]. *)
Lemma re_match_tar_tail (ic : bool) (s : string) :
  Regex.re_match ic
    [Regex.Char "."; Regex.Char "t"; Regex.Char "a"; Regex.Char "r";
     Regex.EndAnchor]%char s = true <->
  exists ext tail,
    s = (ext ++ tail)%string /\ Regex.str_eq ic ".tar" ext = true /\
    Regex.at_end tail = true.
Proof.
  split.
  - destruct s as [|c1 [|c2 [|c3 [|c4 tail]]]]; cbn;
      rewrite ?andb_false_r; try discriminate.
    intros H. repeat (apply andb_true_iff in H as [? H]).
    exists (String c1 (String c2 (String c3 (String c4 ""))))%string, tail.
    cbn. repeat split; auto.
    repeat (apply andb_true_iff; split); auto.
  - intros (ext & tail & -> & He & Ht).
    destruct ext as [|c1 [|c2 [|c3 [|c4 [|c5 ext]]]]]; cbn in He;
      rewrite ?andb_false_r in He; try discriminate.
    repeat (apply andb_true_iff in He as [? He]).
    cbn. repeat (apply andb_true_iff; split); auto.
Qed.

(** A path matches the handler's pattern exactly when it is a non-empty
    stem without newline, then [.tar] (in any case unless the handler is
    case sensitive), then the end of the string or a final newline. *)
Lemma matches_backup_regex (self : BackupEventHandler) (p : string) :
  regexes self = BACKUP_REGEX ->
  (matches self p = true <->
   exists stem ext tail,
     p = (stem ++ ext ++ tail)%string /\ stem <> "" /\
     Str.no_newline stem = true /\
     Regex.str_eq (negb (case_sensitive self)) ".tar" ext = true /\
     Regex.at_end tail = true).
Proof.
  intros Hre. unfold matches. rewrite Hre. unfold BACKUP_REGEX.
  cbn [existsb]. rewrite orb_false_r, re_match_plus.
  split.
  - intros (stem & rest & -> & Hne & Hnl & Hr).
    apply re_match_tar_tail in Hr as (ext & tail & -> & He & Ht).
    exists stem, ext, tail. auto.
  - intros (stem & ext & tail & -> & Hne & Hnl & He & Ht).
    exists stem, (ext ++ tail)%string. repeat split; auto.
    apply re_match_tar_tail. exists ext, tail. auto.
Qed.

(** ** Who is eligible *)

Lemma local_files_of_spec (entries : list node) (file : string) :
  In file (local_files_of entries) <->
  exists sz, In (RegularFile file sz) entries.
Proof.
  unfold local_files_of. rewrite in_map_iff. split.
  - intros (x & Hx & Hin). apply filter_In in Hin as [Hin Hf].
    destruct x as [nm sz|nm sz ch]; [|discriminate].
    cbn in Hx. subst nm. now exists sz.
  - intros (sz & Hin). exists (RegularFile file sz).
    split; [reflexivity|]. apply filter_In. auto.
Qed.

(** An event reaches the upload only through a matching path and
    [on_created]. *)
Lemma dispatch_upload_matches (fuel : nat) (w : world)
    (self : BackupEventHandler) (event : fs_event) (c : nat) :
  upload_calls (fst (dispatch fuel w self event c)) <> [] ->
  matches self (src_path event) = true /\ ev_type event = Created.
Proof.
  rewrite dispatch_run.
  destruct (matches self (src_path event)); [|intros H; now contradiction H].
  destruct (ev_type event); auto; intros H; now contradiction H.
Qed.

(** ** The Supervisor client *)

Module SupervisorAPIFacts.
Import SupervisorAPI.

(** A response that is not [ok] makes the helper return [None]. *)
Lemma handle_not_ok (body : option pyval) :
  handle (Response false body) = Ok PNone.
Proof. reflexivity. Qed.

(** [None] has no [get]. *)
Lemma py_get_none (key : string) (default : pyval) :
  py_get PNone key default = Err AttributeError.
Proof. reflexivity. Qed.

(** C10.  When the request completes and the response is not [ok], [_get]
    (or [_post]) returns [None], and [get_snapshots], [get_snapshot] and
    [remove_snapshot] then raise [AttributeError] from calling [get] on
    it: neither [SupervisorAPIError] nor a value comes out. *)
Theorem C10_not_ok_response_raises_attribute_error
    (self : session) (slug : string) (body : option pyval) :
  (session_get self (BASE_URL ++ "/snapshots")%string = Response false body ->
   _get self "/snapshots" = Ok PNone /\
   get_snapshots self = Err AttributeError) /\
  (session_get self (BASE_URL ++ ("/snapshots/" ++ slug ++ "/info"))%string
   = Response false body ->
   _get self ("/snapshots/" ++ slug ++ "/info")%string = Ok PNone /\
   get_snapshot self slug = Err AttributeError) /\
  (session_post self (BASE_URL ++ ("/snapshots/" ++ slug ++ "/remove"))%string
   = Response false body ->
   _post self ("/snapshots/" ++ slug ++ "/remove")%string = Ok PNone /\
   remove_snapshot self slug = Err AttributeError).
Proof.
  split; [|split]; intros Hresp.
  - assert (Hget : _get self "/snapshots" = Ok PNone).
    { unfold _get. rewrite Hresp. apply handle_not_ok. }
    split; [exact Hget|].
    unfold get_snapshots. rewrite Hget. cbn [res_bind].
    now rewrite py_get_none.
  - assert (Hget : _get self ("/snapshots/" ++ slug ++ "/info")%string
                   = Ok PNone).
    { unfold _get. rewrite Hresp. apply handle_not_ok. }
    split; [exact Hget|].
    unfold get_snapshot. rewrite Hget. cbn [res_bind].
    apply py_get_none.
  - assert (Hpost : _post self ("/snapshots/" ++ slug ++ "/remove")%string
                    = Ok PNone).
    { unfold _post. rewrite Hresp. apply handle_not_ok. }
    split; [exact Hpost|].
    unfold remove_snapshot. rewrite Hpost. cbn [res_bind].
    now rewrite py_get_none.
Qed.

Lemma C10_witness :
  get_snapshots Scenario_session = Err AttributeError /\
  get_snapshot Scenario_session "abc123" = Err AttributeError /\
  remove_snapshot Scenario_session "abc123" = Err AttributeError.
Proof.
  pose proof (C10_not_ok_response_raises_attribute_error Scenario_session
                "abc123" None) as (H1 & H2 & H3).
  split; [|split].
  - exact (proj2 (H1 eq_refl)).
  - exact (proj2 (H2 eq_refl)).
  - exact (proj2 (H3 eq_refl)).
Defined.

End SupervisorAPIFacts.

(* ================================================================== *)
(** * Further properties *)

(** ** Which files the reconciler uploads *)

Section ReconcileDecision.

Variables (w : world) (s3_bucket : S3Bucket) (monitor_path : string)
          (bucket_contents : list remote_object)
          (upload_missing_files : bool).

Let body := reconcile_file w s3_bucket monitor_path bucket_contents
              upload_missing_files.
Let needs := needs_upload w monitor_path bucket_contents
               upload_missing_files.
Let call := upload_call_of s3_bucket monitor_path.

(** The upload calls of one iteration are decided by [needs_upload]. *)
Lemma reconcile_file_upload_calls (file : string) (c : nat) :
  upload_calls (fst (body file c)) = if needs file then [call file] else [].
Proof.
  unfold body, needs, needs_upload, call, upload_call_of.
  rewrite reconcile_file_run.
  destruct (lookup_entry w monitor_path file) as [n|]; [|reflexivity].
  pose proof (upload_file_calls w s3_bucket
                (Pathlib.join monitor_path file) c) as Hu.
  destruct (found_in bucket_contents file) as [|found0 rest].
  - destruct upload_missing_files; [|reflexivity].
    destruct (upload_file w s3_bucket _ c). exact Hu.
  - destruct (Z.eqb _ _); [reflexivity|].
    destruct (upload_file w s3_bucket _ c). exact Hu.
Qed.

(** An iteration returns unless its file has no entry or its upload raises
    something [upload_file] does not catch. *)
Lemma reconcile_file_returns (file : string) (c : nat) :
  lookup_entry w monitor_path file <> None ->
  needs file && upload_escapes w (Pathlib.join monitor_path file) = false ->
  snd (body file c) = Ret tt c.
Proof.
  unfold body, needs, needs_upload, upload_escapes.
  intros Hl Hok. rewrite reconcile_file_run.
  destruct (lookup_entry w monitor_path file) as [n|]; [|contradiction].
  destruct (found_in bucket_contents file) as [|found0 rest].
  - destruct upload_missing_files; [|reflexivity].
    rewrite upload_file_run.
    destruct (s3_upload_file w (Pathlib.join monitor_path file)) as [e|];
      [|reflexivity].
    destruct (is_S3UploadFailedError e); [reflexivity | discriminate].
  - destruct (Z.eqb _ _); [reflexivity|].
    rewrite upload_file_run.
    destruct (s3_upload_file w (Pathlib.join monitor_path file)) as [e|];
      [|reflexivity].
    destruct (is_S3UploadFailedError e); [reflexivity | discriminate].
Qed.

End ReconcileDecision.

(** X1.  Whatever the world does, the upload calls of a reconciliation are,
    in the order of enumeration, calls for enumerated files the loop body
    decides to upload: the calls made are a prefix of the calls for the
    files that need one.  No other key of the bucket is written. *)
Theorem reconcile_uploads_prefix
    (w : world) (s3_bucket : S3Bucket) (monitor_path : string)
    (bucket_contents : list remote_object) (upload_missing_files : bool)
    (local_files : list string) (c : nat) :
  exists not_reached,
    map (upload_call_of s3_bucket monitor_path)
      (filter (needs_upload w monitor_path bucket_contents
                 upload_missing_files) local_files)
    = upload_calls
        (fst (reconcile w s3_bucket monitor_path bucket_contents
                upload_missing_files local_files c))
      ++ not_reached.
Proof.
  unfold reconcile. revert c.
  induction local_files as [|file rest IH]; intros c.
  - exists []. reflexivity.
  - rewrite for_each_cons. cbn [filter].
    pose proof (reconcile_file_upload_calls w s3_bucket monitor_path
                  bucket_contents upload_missing_files file c) as Hb.
    pose proof (reconcile_file_clock w s3_bucket monitor_path
                  bucket_contents upload_missing_files file c) as Hc.
    destruct (reconcile_file w s3_bucket monitor_path bucket_contents
                upload_missing_files file c) as [t r].
    cbn [fst] in Hb.
    destruct (Hc _ _ eq_refl) as [-> | [e ->]].
    + destruct (IH c) as [nr Hnr].
      destruct (for_each rest _ c) as [t' r']. cbn [fst] in *.
      exists nr. rewrite upload_calls_app, Hb.
      destruct (needs_upload _ _ _ _ file); cbn [map app];
        now rewrite Hnr.
    + cbn [fst]. rewrite Hb.
      destruct (needs_upload _ _ _ _ file); cbn [map app]; eauto.
Qed.

(** X2.  When no upload of an enumerated file raises an exception that
    [upload_file] lets through, the reconciliation of a directory's
    regular files returns normally, and its upload calls are exactly the
    calls for the files that need one, once each, in the order of
    enumeration. *)
Theorem reconcile_uploads_exactly
    (w : world) (s3_bucket : S3Bucket) (monitor_path : string)
    (bucket_contents : list remote_object) (upload_missing_files : bool)
    (dn : string) (dsz : N) (entries : list node) (c : nat) :
  fs w monitor_path = Some (Directory dn dsz entries) ->
  (forall file, In file (local_files_of entries) ->
     upload_escapes w (Pathlib.join monitor_path file) = false) ->
  snd (reconcile w s3_bucket monitor_path bucket_contents
         upload_missing_files (local_files_of entries) c) = Ret tt c /\
  upload_calls
    (fst (reconcile w s3_bucket monitor_path bucket_contents
            upload_missing_files (local_files_of entries) c))
  = map (upload_call_of s3_bucket monitor_path)
      (filter (needs_upload w monitor_path bucket_contents
                 upload_missing_files) (local_files_of entries)).
Proof.
  intros Hfs Hesc.
  assert (Hentry : forall file, In file (local_files_of entries) ->
            lookup_entry w monitor_path file <> None).
  { intros file Hin.
    destruct (enumerated_has_entry _ _ _ _ _ _ Hfs Hin) as (n & -> & _).
    discriminate. }
  unfold reconcile. revert Hesc Hentry.
  generalize (local_files_of entries) as local_files.
  induction local_files as [|file rest IH]; intros Hesc Hentry.
  - split; reflexivity.
  - rewrite for_each_cons. cbn [filter].
    pose proof (reconcile_file_upload_calls w s3_bucket monitor_path
                  bucket_contents upload_missing_files file c) as Hb.
    pose proof (reconcile_file_returns w s3_bucket monitor_path
                  bucket_contents upload_missing_files file c
                  (Hentry file (or_introl eq_refl))) as Hr.
    rewrite (Hesc file (or_introl eq_refl)), andb_false_r in Hr.
    specialize (Hr eq_refl).
    destruct (reconcile_file w s3_bucket monitor_path bucket_contents
                upload_missing_files file c) as [t r].
    cbn [fst snd] in Hb, Hr. subst r.
    destruct IH as [IHr IHu].
    { intros f Hf. apply Hesc. now right. }
    { intros f Hf. apply Hentry. now right. }
    destruct (for_each rest _ c) as [t' r']. cbn [fst snd] in *.
    split; [exact IHr|].
    rewrite upload_calls_app, Hb, IHu.
    destruct (needs_upload _ _ _ _ file); reflexivity.
Qed.

Lemma reconcile_uploads_exactly_witness :
  upload_calls
    (fst (reconcile Scenario.w Scenario.bucket "/backup" Scenario.remote
            false Cases.local_files 0))
  = [UploadFile "/backup/c.tar" "my-backups" "c.tar" "STANDARD_IA"].
Proof.
  refine (proj2 (reconcile_uploads_exactly Scenario.w Scenario.bucket
                   "/backup" Scenario.remote false "backup" 4096%N
                   [RegularFile "a.tar" 100; RegularFile "b.tar" 200;
                    RegularFile "c.tar" 300; RegularFile "notes.txt" 7;
                    Directory "old" 4096 [RegularFile "d.tar" 50]] 0
                   eq_refl _)).
  intros file Hin. cbn in Hin.
  destruct Hin as [<-|[<-|[<-|[<-|[]]]]]; reflexivity.
Defined.

(** X3.  A directory that the bucket already mirrors causes no upload: when
    every enumerated file finds an object of its name whose size is the
    size read, the reconciliation returns normally and calls the provider
    for no upload, whatever the flag and whatever the provider would
    answer. *)
Theorem reconcile_in_sync_uploads_nothing
    (w : world) (s3_bucket : S3Bucket) (monitor_path : string)
    (bucket_contents : list remote_object) (upload_missing_files : bool)
    (local_files : list string) (c : nat) :
  (forall file, In file local_files ->
     exists n found0 rest,
       lookup_entry w monitor_path file = Some n /\
       found_in bucket_contents file = found0 :: rest /\
       Z.of_N (node_size n) = size found0) ->
  reconcile w s3_bucket monitor_path bucket_contents upload_missing_files
    local_files c
  = (map (fun file =>
            Log DEBUG
              (MsgSizeMatches (Pathlib.join monitor_path file)
                 (match lookup_entry w monitor_path file with
                  | Some n => node_size n
                  | None => 0%N
                  end))) local_files,
     Ret tt c).
Proof.
  unfold reconcile. induction local_files as [|file rest IH]; intros Hsync.
  - reflexivity.
  - rewrite for_each_cons, reconcile_file_run. cbn [map].
    destruct (Hsync file (or_introl eq_refl))
      as (n & found0 & more & Hl & Hf & Hsz).
    apply Z.eqb_eq in Hsz. rewrite Hl, Hf, Hsz.
    rewrite IH; [reflexivity|].
    intros f Hin. apply Hsync. now right.
Qed.

Lemma reconcile_in_sync_uploads_nothing_witness :
  upload_calls
    (fst (reconcile Cases.w_offline Scenario.bucket "/backup" Cases.in_sync
            true Cases.local_files 0)) = [] /\
  snd (reconcile Cases.w_offline Scenario.bucket "/backup" Cases.in_sync
         true Cases.local_files 0) = Ret tt 0.
Proof.
  assert (H : forall file, In file Cases.local_files ->
     exists n found0 rest,
       lookup_entry Cases.w_offline "/backup" file = Some n /\
       found_in Cases.in_sync file = found0 :: rest /\
       Z.of_N (node_size n) = size found0).
  { intros file Hin. cbn in Hin.
    destruct Hin as [<-|[<-|[<-|[<-|[]]]]];
      eexists _, _, _; (split; [reflexivity|]; split; reflexivity). }
  rewrite (reconcile_in_sync_uploads_nothing Cases.w_offline Scenario.bucket
             "/backup" Cases.in_sync true Cases.local_files 0 H).
  split; reflexivity.
Defined.

(** ** The driver, case by case *)

(** The events of a reconciliation are log calls and upload calls. *)
Lemma reconcile_trace_filter (P : event -> bool)
    (w : world) (s3_bucket : S3Bucket) (monitor_path : string)
    (bucket_contents : list remote_object) (upload_missing_files : bool)
    (local_files : list string) (c : nat) :
  (forall l m, P (Log l m) = false) ->
  (forall f b k sc, P (UploadFile f b k sc) = false) ->
  filter P (fst (reconcile w s3_bucket monitor_path bucket_contents
                   upload_missing_files local_files c)) = [].
Proof.
  intros Plog Pup. unfold reconcile. revert c.
  assert (Hu : forall file c,
            filter P (fst (upload_file w s3_bucket file c)) = []).
  { intros file c. rewrite upload_file_run.
    destruct (s3_upload_file w file) as [e|];
      [destruct (is_S3UploadFailedError e)|];
      cbn [fst filter]; rewrite ?Plog, ?Pup; reflexivity. }
  assert (Hb : forall file c,
            filter P (fst (reconcile_file w s3_bucket monitor_path
                             bucket_contents upload_missing_files file c))
            = []).
  { intros file c. rewrite reconcile_file_run.
    destruct (lookup_entry w monitor_path file) as [n|]; [|reflexivity].
    specialize (Hu (Pathlib.join monitor_path file) c).
    destruct (found_in bucket_contents file) as [|found0 rest].
    - destruct upload_missing_files;
        [destruct (upload_file w s3_bucket _ c)|];
        cbn [fst filter] in *; rewrite Plog; auto.
    - destruct (Z.eqb _ _);
        [|destruct (upload_file w s3_bucket _ c)];
        cbn [fst filter] in *; rewrite Plog; auto. }
  induction local_files as [|file rest IH]; intros c; [reflexivity|].
  rewrite for_each_cons. specialize (Hb file c).
  destruct (reconcile_file w s3_bucket monitor_path bucket_contents
              upload_missing_files file c) as [t [[] k|e k|]];
    cbn [fst] in *; auto.
  specialize (IH k). destruct (for_each rest _ k) as [t' r'].
  cbn [fst] in *. now rewrite filter_app, Hb, IH.
Qed.

(** A reconciliation comes to an end: it returns or raises, at the time it
    started. *)
Lemma reconcile_ends
    (w : world) (s3_bucket : S3Bucket) (monitor_path : string)
    (bucket_contents : list remote_object) (upload_missing_files : bool)
    (local_files : list string) (c : nat) :
  snd (reconcile w s3_bucket monitor_path bucket_contents
         upload_missing_files local_files c) = Ret tt c \/
  exists e,
    snd (reconcile w s3_bucket monitor_path bucket_contents
           upload_missing_files local_files c) = Raise e c.
Proof.
  unfold reconcile. induction local_files as [|x l IH]; [now left|].
  rewrite for_each_cons.
  pose proof (reconcile_file_clock w s3_bucket monitor_path bucket_contents
                upload_missing_files x c) as Hc.
  destruct (reconcile_file w s3_bucket monitor_path bucket_contents
              upload_missing_files x c) as [tx rx].
  destruct (Hc _ _ eq_refl) as [-> | [e ->]]; [|right; now exists e].
  destruct (for_each l _ c). exact IH.
Qed.

(** [main] on six arguments. *)
Lemma main_six (w : world) (a0 monitor_path b region sc arg : string)
    (c : nat) :
  main w [a0; monitor_path; b; region; sc; arg] c =
    let bucket := {| bucket_name := b; storage_class := sc |} in
    match fs w monitor_path with
    | None =>
        ([Log DEBUG MsgCreatingClient;
          Log CRITICAL (MsgNoMonitorPath monitor_path)], Ret tt c)
    | Some nd =>
        match list_objects_v2 w b with
        | inl e =>
            (Log DEBUG MsgCreatingClient :: ListObjectsV2 b
               :: (if is_NoSuchBucket e then [Log ERROR (MsgListError e)]
                   else []),
             if is_Exception e then Raise (SystemExit 1) c else Raise e c)
        | inr response =>
            let listed :=
              Log DEBUG MsgCreatingClient :: ListObjectsV2 b
                :: match IsTruncated response with
                   | Some true => [Log WARNING MsgTruncated]
                   | _ => []
                   end in
            match nd with
            | RegularFile _ _ =>
                (listed, Raise (OtherError "NotADirectoryError") c)
            | Directory _ _ entries =>
                let (t, r) :=
                  reconcile w bucket monitor_path
                    (map to_remote (contents_or_nil response))
                    (parse_upload_missing_files arg)
                    (local_files_of entries) c in
                (listed ++ t
                   ++ match r with
                      | Ret _ _ => [Log INFO (MsgMonitoring monitor_path);
                                    Schedule monitor_path true;
                                    ObserverStart]
                      | _ => []
                      end,
                 match r with
                 | Ret _ _ => Running
                 | _ => r
                 end)
            end
        end
    end.
Proof.
  cbn zeta.
  destruct (fs w monitor_path) as [nd|] eqn:Hfs.
  - destruct (list_objects_v2 w b) as [e|response] eqn:Hl.
    + unfold main, S3Bucket_init, path_exists.
      cbn [List.length Nat.eqb negb]. rewrite Hfs. run_m.
      rewrite list_bucket_run. cbn [bucket_name]. rewrite Hl.
      destruct e; reflexivity.
    + destruct nd as [nm sz|nm sz entries].
      * unfold main, S3Bucket_init, path_exists, iterdir.
        cbn [List.length Nat.eqb negb]. rewrite Hfs. run_m.
        rewrite list_bucket_run. cbn [bucket_name]. rewrite Hl.
        cbn. now rewrite app_nil_r.
      * rewrite (main_reconciles w a0 monitor_path b region sc arg nm sz
                   entries response c Hfs Hl).
        cbn zeta. rewrite list_bucket_run. cbn [bucket_name]. rewrite Hl.
        destruct (reconcile w _ monitor_path _ _ _ c) as [t r].
        reflexivity.
  - unfold main, S3Bucket_init, path_exists.
    cbn [List.length Nat.eqb negb]. rewrite Hfs. reflexivity.
Qed.

Lemma argv_six (argv : list string) :
  List.length argv = 6 ->
  exists a0 monitor_path b region sc arg,
    argv = [a0; monitor_path; b; region; sc; arg].
Proof.
  intros H.
  destruct argv as [|a0 [|m [|b [|r [|sc [|arg [|x rest]]]]]]];
    try discriminate.
  now exists a0, m, b, r, sc, arg.
Qed.

(** X4.  The bucket is listed at most once in a run, whatever the
    arguments and the world: the listing the reconciler compares with is
    one snapshot, fetched before the first file is examined and never
    refreshed. *)
Theorem main_lists_at_most_once (w : world) (argv : list string) (c : nat) :
  List.length (filter is_list_call (fst (main w argv c))) <= 1 /\
  forall before after b,
    fst (main w argv c) = before ++ ListObjectsV2 b :: after ->
    upload_calls before = [].
Proof.
  destruct (Nat.eq_dec (List.length argv) 6) as [Hlen|Hlen].
  2:{ unfold main. apply Nat.eqb_neq in Hlen. rewrite Hlen. cbn.
      split; [lia|]. intros before after b H.
      destruct before as [|x [|y before]]; discriminate. }
  destruct (argv_six argv Hlen) as (a0 & m & b0 & region & sc & arg & ->).
  rewrite main_six. cbn zeta.
  assert (Hhead : forall (tail : trace) before after b,
            filter is_list_call tail = [] ->
            Log DEBUG MsgCreatingClient :: ListObjectsV2 b0 :: tail
            = before ++ ListObjectsV2 b :: after ->
            upload_calls before = []).
  { intros tail before after b Ht H.
    destruct before as [|x [|y before]]; try reflexivity.
    - injection H as <- _. reflexivity.
    - injection H as <- <- H. exfalso.
      assert (Hin : In (ListObjectsV2 b) (filter is_list_call tail)).
      { apply filter_In. split; [|reflexivity].
        rewrite H. apply in_or_app. right. now left. }
      rewrite Ht in Hin. exact Hin. }
  destruct (fs w m) as [nd|].
  2:{ cbn. split; [lia|]. intros before after b H.
      destruct before as [|x [|y [|z before]]]; discriminate. }
  destruct (list_objects_v2 w b0) as [e|response].
  { cbn [fst]. split.
    - destruct (is_NoSuchBucket e); cbn; lia.
    - intros before after b. apply Hhead.
      destruct (is_NoSuchBucket e); reflexivity. }
  assert (Hw : filter is_list_call
                 match IsTruncated response with
                 | Some true => [Log WARNING MsgTruncated]
                 | _ => []
                 end = []).
  { destruct (IsTruncated response) as [[|]|]; reflexivity. }
  destruct nd as [nm sz|nm sz entries].
  { cbn [fst]. split.
    - cbn. rewrite Hw. cbn. lia.
    - intros before after b. now apply Hhead. }
  pose proof (reconcile_trace_filter is_list_call w
                {| bucket_name := b0; storage_class := sc |} m
                (map to_remote (contents_or_nil response))
                (parse_upload_missing_files arg) (local_files_of entries) c
                (fun _ _ => eq_refl) (fun _ _ _ _ => eq_refl)) as Hr.
  destruct (reconcile w _ m _ _ _ c) as [t r]. cbn [fst] in *.
  assert (Htail : filter is_list_call
            (match IsTruncated response with
             | Some true => [Log WARNING MsgTruncated]
             | _ => []
             end ++ t ++
             match r with
             | Ret _ _ => [Log INFO (MsgMonitoring m); Schedule m true;
                           ObserverStart]
             | _ => []
             end) = []).
  { rewrite !filter_app, Hw, Hr. now destruct r. }
  split.
  - cbn. rewrite Htail. cbn. lia.
  - intros before after b. now apply Hhead.
Qed.

(** X5.  The process stays alive exactly when it has scheduled its watch:
    whatever the arguments and the world, [main] is left running if and
    only if its trace ends with the monitoring log, the scheduling of the
    monitored path, recursive, and the start of the observer; in every
    other run nothing is scheduled, and no upload call ever follows the
    scheduling. *)
Theorem main_watches_iff_running (w : world) (argv : list string) (c : nat) :
  (snd (main w argv c) = Running ->
   exists t,
     fst (main w argv c)
     = t ++ [Log INFO (MsgMonitoring (nth 1 argv ""));
             Schedule (nth 1 argv "") true; ObserverStart] /\
     filter is_schedule t = []) /\
  (snd (main w argv c) <> Running ->
   filter is_schedule (fst (main w argv c)) = []).
Proof.
  destruct (Nat.eq_dec (List.length argv) 6) as [Hlen|Hlen].
  2:{ unfold main. apply Nat.eqb_neq in Hlen. rewrite Hlen. cbn.
      split; [discriminate | reflexivity]. }
  destruct (argv_six argv Hlen) as (a0 & m & b0 & region & sc & arg & ->).
  rewrite main_six. cbn zeta. cbn [nth].
  destruct (fs w m) as [nd|];
    [|cbn; split; [discriminate | reflexivity]].
  destruct (list_objects_v2 w b0) as [e|response].
  { cbn [fst snd]. split.
    - destruct (is_Exception e); discriminate.
    - intros _. destruct (is_NoSuchBucket e); reflexivity. }
  assert (Hw : filter is_schedule
                 match IsTruncated response with
                 | Some true => [Log WARNING MsgTruncated]
                 | _ => []
                 end = []).
  { destruct (IsTruncated response) as [[|]|]; reflexivity. }
  destruct nd as [nm sz|nm sz entries].
  { cbn [fst snd]. split; [discriminate|]. intros _. cbn. now rewrite Hw. }
  pose proof (reconcile_trace_filter is_schedule w
                {| bucket_name := b0; storage_class := sc |} m
                (map to_remote (contents_or_nil response))
                (parse_upload_missing_files arg) (local_files_of entries) c
                (fun _ _ => eq_refl) (fun _ _ _ _ => eq_refl)) as Hr.
  pose proof (reconcile_ends w
                {| bucket_name := b0; storage_class := sc |} m
                (map to_remote (contents_or_nil response))
                (parse_upload_missing_files arg) (local_files_of entries) c)
    as He.
  destruct (reconcile w _ m _ _ _ c) as [t r]. cbn [fst snd] in *.
  destruct He as [-> | [e ->]].
  - split; [|intros H; now contradiction H]. intros _.
    exists (Log DEBUG MsgCreatingClient :: ListObjectsV2 b0
              :: match IsTruncated response with
                 | Some true => [Log WARNING MsgTruncated]
                 | _ => []
                 end ++ t).
    split.
    + cbn [app]. now rewrite app_assoc.
    + cbn. now rewrite filter_app, Hw, Hr.
  - split; [discriminate|]. intros _. cbn.
    now rewrite !filter_app, Hw, Hr.
Qed.

Lemma main_lists_at_most_once_witness :
  List.length
    (filter is_list_call (fst (main Scenario.w Scenario.argv 0))) <= 1 /\
  upload_calls [Log DEBUG MsgCreatingClient] = [].
Proof.
  pose proof (main_lists_at_most_once Scenario.w Scenario.argv 0)
    as [Hcount Hbefore].
  split; [exact Hcount|].
  exact (Hbefore [Log DEBUG MsgCreatingClient] _ "my-backups" eq_refl).
Defined.

Lemma main_watches_iff_running_witness :
  exists t,
    fst (main Scenario.w Scenario.argv 0)
    = t ++ [Log INFO (MsgMonitoring "/backup"); Schedule "/backup" true;
            ObserverStart] /\
    filter is_schedule t = [].
Proof.
  exact (proj1 (main_watches_iff_running Scenario.w Scenario.argv 0)
           eq_refl).
Defined.

(** An iteration whose upload raises what [upload_file] lets through
    raises it. *)
Lemma reconcile_file_raises
    (w : world) (s3_bucket : S3Bucket) (monitor_path : string)
    (bucket_contents : list remote_object) (upload_missing_files : bool)
    (file : string) (e : exn) (c : nat) :
  needs_upload w monitor_path bucket_contents upload_missing_files file
  = true ->
  s3_upload_file w (Pathlib.join monitor_path file) = Some e ->
  is_S3UploadFailedError e = false ->
  snd (reconcile_file w s3_bucket monitor_path bucket_contents
         upload_missing_files file c) = Raise e c.
Proof.
  unfold needs_upload. intros Hneed Hup He.
  rewrite reconcile_file_run.
  destruct (lookup_entry w monitor_path file) as [n|]; [|discriminate].
  destruct (found_in bucket_contents file) as [|found0 rest].
  - rewrite Hneed, upload_file_run, Hup, He. reflexivity.
  - apply negb_true_iff in Hneed. rewrite Hneed.
    rewrite upload_file_run, Hup, He. reflexivity.
Qed.

(** X6.  An upload that fails with anything but [S3UploadFailedError]
    during the reconciliation ends the run: [main] raises that exception,
    the files enumerated after the failing one are not uploaded, and the
    watch is never scheduled. *)
Theorem main_upload_exception_ends_run
    (w : world) (a0 monitor_path b region sc arg : string)
    (dn : string) (dsz : N) (entries : list node)
    (response : list_response)
    (pre post : list string) (file : string) (e : exn)
    (t1 : trace) (c c1 : nat) :
  let bucket := {| bucket_name := b; storage_class := sc |} in
  let contents := map to_remote (contents_or_nil response) in
  let flag := parse_upload_missing_files arg in
  fs w monitor_path = Some (Directory dn dsz entries) ->
  list_objects_v2 w b = inr response ->
  local_files_of entries = pre ++ file :: post ->
  reconcile w bucket monitor_path contents flag pre c = (t1, Ret tt c1) ->
  needs_upload w monitor_path contents flag file = true ->
  s3_upload_file w (Pathlib.join monitor_path file) = Some e ->
  is_S3UploadFailedError e = false ->
  snd (main w [a0; monitor_path; b; region; sc; arg] c) = Raise e c1 /\
  filter is_schedule (fst (main w [a0; monitor_path; b; region; sc; arg] c))
  = [] /\
  upload_calls (fst (main w [a0; monitor_path; b; region; sc; arg] c))
  = upload_calls t1 ++ [upload_call_of bucket monitor_path file].
Proof.
  intros bucket contents flag Hfs Hl Hfiles Hpre Hneed Hup He.
  pose proof (reconcile_file_raises w bucket monitor_path contents flag
                file e c1 Hneed Hup He) as Hraise.
  pose proof (reconcile_file_upload_calls w bucket monitor_path contents
                flag file c1) as Hcalls.
  rewrite Hneed in Hcalls.
  pose proof (reconcile_trace_filter is_schedule w bucket monitor_path
                contents flag (local_files_of entries) c
                (fun _ _ => eq_refl) (fun _ _ _ _ => eq_refl)) as Hsched.
  rewrite main_six, Hfs, Hl. cbn zeta. fold bucket contents flag.
  rewrite Hfiles in *.
  unfold reconcile in Hpre, Hsched |- *.
  rewrite (for_each_reach _ _ _ _ _ _ Hpre), for_each_cons in Hsched |- *.
  destruct (reconcile_file w bucket monitor_path contents flag file c1)
    as [tb rb].
  cbn [fst snd] in Hraise, Hcalls. subst rb. cbn [fst snd] in *.
  assert (Hw : forall P,
            (forall l m, P (Log l m) = false) ->
            filter P match IsTruncated response with
                     | Some true => [Log WARNING MsgTruncated]
                     | _ => []
                     end = []).
  { intros P HP. destruct (IsTruncated response) as [[|]|]; cbn;
      rewrite ?HP; reflexivity. }
  split; [reflexivity|]. split.
  - rewrite filter_app in Hsched.
    cbn. rewrite !filter_app, (Hw _ (fun _ _ => eq_refl)), Hsched.
    reflexivity.
  - change (upload_calls
              ([Log DEBUG MsgCreatingClient; ListObjectsV2 b]
                 ++ match IsTruncated response with
                    | Some true => [Log WARNING MsgTruncated]
                    | _ => []
                    end ++ (t1 ++ tb) ++ [])
            = upload_calls t1 ++ [upload_call_of bucket monitor_path file]).
    rewrite !upload_calls_app. unfold upload_calls at 2.
    rewrite (Hw _ (fun _ _ => eq_refl)), Hcalls. cbn.
    now rewrite app_nil_r.
Qed.

Lemma main_upload_exception_ends_run_witness :
  snd (main Cases.w_offline Scenario.argv 0)
  = Raise (OtherError "EndpointConnectionError") 0 /\
  filter is_schedule (fst (main Cases.w_offline Scenario.argv 0)) = [] /\
  upload_calls (fst (main Cases.w_offline Scenario.argv 0))
  = [UploadFile "/backup/a.tar" "my-backups" "a.tar" "STANDARD_IA"].
Proof.
  exact (main_upload_exception_ends_run Cases.w_offline
           "amazon-s3-backup.py" "/backup" "my-backups" "eu-west-1"
           "STANDARD_IA" "True" "backup" 4096%N
           [RegularFile "a.tar" 100; RegularFile "b.tar" 200;
            RegularFile "c.tar" 300; RegularFile "notes.txt" 7;
            Directory "old" 4096 [RegularFile "d.tar" 50]]
           Scenario.listing [] ["b.tar"; "c.tar"; "notes.txt"] "a.tar"
           (OtherError "EndpointConnectionError") [] 0 0
           eq_refl eq_refl eq_refl eq_refl eq_refl eq_refl eq_refl).
Defined.

(** X7.  A monitored path that exists but is no directory passes the
    existence test: the bucket is listed, then the enumeration raises
    [NotADirectoryError]; the run ends with status 1, having uploaded
    nothing and scheduled no watch. *)
Theorem main_monitor_path_is_a_file
    (w : world) (a0 monitor_path b region sc arg : string)
    (nm : string) (sz : N) (response : list_response) (c : nat) :
  fs w monitor_path = Some (RegularFile nm sz) ->
  list_objects_v2 w b = inr response ->
  snd (main w [a0; monitor_path; b; region; sc; arg] c)
  = Raise (OtherError "NotADirectoryError") c /\
  exit_status (snd (main w [a0; monitor_path; b; region; sc; arg] c))
  = Some 1%Z /\
  filter is_list_call
    (fst (main w [a0; monitor_path; b; region; sc; arg] c))
  = [ListObjectsV2 b] /\
  upload_calls (fst (main w [a0; monitor_path; b; region; sc; arg] c)) = []
  /\
  filter is_schedule
    (fst (main w [a0; monitor_path; b; region; sc; arg] c)) = [].
Proof.
  intros Hfs Hl. rewrite main_six, Hfs, Hl. cbn zeta. cbn [fst snd].
  repeat split;
    destruct (IsTruncated response) as [[|]|]; reflexivity.
Qed.

Lemma main_monitor_path_is_a_file_witness :
  snd (main Cases.w_file Scenario.argv 0)
  = Raise (OtherError "NotADirectoryError") 0.
Proof.
  exact (proj1 (main_monitor_path_is_a_file Cases.w_file
                  "amazon-s3-backup.py" "/backup" "my-backups" "eu-west-1"
                  "STANDARD_IA" "True" "backup" 12%N Scenario.listing 0
                  eq_refl eq_refl)).
Defined.

(** ** Who is eligible *)

Lemma reported_files_app (t1 t2 : trace) :
  reported_files (t1 ++ t2) = reported_files t1 ++ reported_files t2.
Proof.
  induction t1 as [|e t1 IH]; [reflexivity|].
  cbn [app reported_files]. destruct (reported e); now rewrite IH.
Qed.

Lemma upload_file_reports_nothing (w : world) (self : S3Bucket)
    (file : string) (c : nat) :
  reported_files (fst (upload_file w self file c)) = [].
Proof.
  rewrite upload_file_run.
  destruct (s3_upload_file w file) as [e|];
    [destruct (is_S3UploadFailedError e)|]; reflexivity.
Qed.

Section ReconcileReports.

Variables (w : world) (s3_bucket : S3Bucket) (monitor_path : string)
          (bucket_contents : list remote_object)
          (upload_missing_files : bool).

Let body := reconcile_file w s3_bucket monitor_path bucket_contents
              upload_missing_files.
Let loop := reconcile w s3_bucket monitor_path bucket_contents
              upload_missing_files.
Let local_file := Pathlib.join monitor_path.

(** An iteration reports on its file, once, unless [stat] fails. *)
Lemma reconcile_file_reports (file : string) (c : nat) :
  reported_files (fst (body file c)) =
    match lookup_entry w monitor_path file with
    | Some _ => [local_file file]
    | None => []
    end.
Proof.
  unfold body, local_file. rewrite reconcile_file_run.
  destruct (lookup_entry w monitor_path file) as [n|]; [|reflexivity].
  pose proof (upload_file_reports_nothing w s3_bucket
                (Pathlib.join monitor_path file) c) as Hu.
  destruct (found_in bucket_contents file) as [|found0 rest].
  - destruct upload_missing_files; [|reflexivity].
    destruct (upload_file w s3_bucket _ c). cbn [fst] in *.
    cbn [reported_files reported]. now rewrite Hu.
  - destruct (Z.eqb _ _); [reflexivity|].
    destruct (upload_file w s3_bucket _ c). cbn [fst] in *.
    cbn [reported_files reported]. now rewrite Hu.
Qed.

(** A reconciliation reports on the files it is given, in their order, as
    far as it gets. *)
Lemma reconcile_reports_prefix (local_files : list string) (c : nat) :
  exists not_reached,
    map local_file local_files
    = reported_files (fst (loop local_files c)) ++ not_reached.
Proof.
  unfold loop, reconcile. fold body.
  induction local_files as [|file rest IH]; [now exists []|].
  rewrite for_each_cons.
  pose proof (reconcile_file_reports file c) as Hb.
  pose proof (reconcile_file_clock w s3_bucket monitor_path bucket_contents
                upload_missing_files file c) as Hc.
  pose proof (reconcile_file_run w s3_bucket monitor_path bucket_contents
                upload_missing_files file c) as Hrun.
  fold body in Hc, Hrun.
  destruct (body file c) as [t r]. cbn [fst] in Hb.
  destruct (Hc _ _ eq_refl) as [-> | [e ->]].
  - destruct (lookup_entry w monitor_path file) as [n|];
      [|discriminate].
    destruct IH as [nr Hnr].
    destruct (for_each rest body c) as [t' r']. cbn [fst] in *.
    exists nr. rewrite reported_files_app, Hb. cbn [map app].
    now rewrite Hnr.
  - cbn [fst]. rewrite Hb. cbn [map].
    destruct (lookup_entry w monitor_path file); cbn [app]; eauto.
Qed.

(** A reconciliation that returns has reported on every file, once. *)
Lemma reconcile_reports_all (local_files : list string) (c k : nat) :
  snd (loop local_files c) = Ret tt k ->
  reported_files (fst (loop local_files c)) = map local_file local_files.
Proof.
  unfold loop, reconcile. fold body.
  induction local_files as [|file rest IH]; [reflexivity|].
  rewrite for_each_cons.
  pose proof (reconcile_file_reports file c) as Hb.
  pose proof (reconcile_file_clock w s3_bucket monitor_path bucket_contents
                upload_missing_files file c) as Hc.
  pose proof (reconcile_file_run w s3_bucket monitor_path bucket_contents
                upload_missing_files file c) as Hrun.
  fold body in Hc, Hrun.
  destruct (body file c) as [t r]. cbn [fst] in Hb.
  destruct (Hc _ _ eq_refl) as [-> | [e ->]]; [|discriminate].
  destruct (lookup_entry w monitor_path file) as [n|]; [|discriminate].
  destruct (for_each rest body c) as [t' r']. cbn [fst snd] in *.
  intros Hr. rewrite reported_files_app, Hb, (IH Hr). reflexivity.
Qed.

(** A reconciliation uploads nothing but files it is given. *)
Lemma reconcile_uploads_given (local_files : list string) (c : nat)
    (f bk k sc : string) :
  In (UploadFile f bk k sc) (fst (loop local_files c)) ->
  exists file, In file local_files /\ f = local_file file.
Proof.
  unfold loop, reconcile. fold body. revert c.
  induction local_files as [|file rest IH]; intros c; [intros []|].
  rewrite for_each_cons.
  pose proof (reconcile_file_upload_calls w s3_bucket monitor_path
                bucket_contents upload_missing_files file c) as Hb.
  fold body in Hb.
  assert (Hhere : forall t,
            upload_calls t
            = (if needs_upload w monitor_path bucket_contents
                    upload_missing_files file
               then [upload_call_of s3_bucket monitor_path file] else []) ->
            In (UploadFile f bk k sc) t ->
            exists file0, In file0 (file :: rest) /\ f = local_file file0).
  { intros t Ht Hin.
    assert (Hu : In (UploadFile f bk k sc) (upload_calls t)).
    { apply filter_In. split; [exact Hin | reflexivity]. }
    rewrite Ht in Hu.
    destruct (needs_upload _ _ _ _ file); [|destruct Hu].
    destruct Hu as [Hu|[]]. injection Hu as <- _ _ _.
    exists file. split; [now left | reflexivity]. }
  destruct (body file c) as [t [[] c'|e c'|]]; cbn [fst] in *;
    try (intros Hin; exact (Hhere _ Hb Hin)).
  specialize (IH c').
  destruct (for_each rest body c') as [t' r']. cbn [fst] in *.
  intros Hin. apply in_app_or in Hin as [Hin|Hin].
  - exact (Hhere _ Hb Hin).
  - destruct (IH Hin) as (file0 & Hf & ->).
    exists file0. split; [now right | reflexivity].
Qed.

End ReconcileReports.

(** C9.  With the monitored directory in place and the bucket listed: the
    files the reconciler reports on, in [main]'s trace, are regular files
    that are entries of the monitored directory itself, in the order of
    enumeration and as far as the loop gets; when the loop comes to its
    end they are all of them, once each, whatever their names; and
    nothing but such a file is uploaded at start.  The one watch [main]
    schedules is on the monitored path with [recursive=True].  The handler
    of that watch uploads for an event only when it is a creation whose
    path matches the [.tar] pattern. *)
Theorem C9_eligibility_asymmetry
    (w : world) (a0 monitor_path b region sc arg : string)
    (dn : string) (dsz : N) (entries : list node)
    (response : list_response) (c : nat) :
  let argv := [a0; monitor_path; b; region; sc; arg] in
  let s3_bucket := {| bucket_name := b; storage_class := sc |} in
  let handler := fw_event_handler (FileWatcher_init monitor_path s3_bucket) in
  let local_file := Pathlib.join monitor_path in
  fs w monitor_path = Some (Directory dn dsz entries) ->
  list_objects_v2 w b = inr response ->
  (forall file,
     In file (local_files_of entries) <->
     exists sz, In (RegularFile file sz) entries) /\
  (exists not_reached,
     map local_file (local_files_of entries)
     = reported_files (fst (main w argv c)) ++ not_reached) /\
  (snd (main w argv c) = Running ->
   reported_files (fst (main w argv c))
   = map local_file (local_files_of entries)) /\
  (forall f bk k s,
     In (UploadFile f bk k s) (fst (main w argv c)) ->
     exists file, In file (local_files_of entries) /\ f = local_file file) /\
  (forall path recursive,
     In (Schedule path recursive) (fst (main w argv c)) ->
     path = monitor_path /\ recursive = true) /\
  (snd (main w argv c) = Running ->
   In (Schedule monitor_path true) (fst (main w argv c))) /\
  (forall fuel event k,
     upload_calls (fst (dispatch fuel w handler event k)) <> [] ->
     matches handler (src_path event) = true /\ ev_type event = Created) /\
  (forall p,
     matches handler p = true <->
     exists stem ext tail,
       p = (stem ++ ext ++ tail)%string /\ stem <> "" /\
       Str.no_newline stem = true /\
       Regex.str_eq true ".tar" ext = true /\
       Regex.at_end tail = true).
Proof.
  intros argv s3_bucket handler local_file Hfs Hl.
  split; [exact (local_files_of_spec entries)|].
  set (contents := map to_remote (contents_or_nil response)).
  set (flag := parse_upload_missing_files arg).
  pose proof (reconcile_reports_prefix w s3_bucket monitor_path contents
                flag (local_files_of entries) c) as Hprefix.
  pose proof (reconcile_reports_all w s3_bucket monitor_path contents
                flag (local_files_of entries) c) as Hall.
  pose proof (reconcile_uploads_given w s3_bucket monitor_path contents
                flag (local_files_of entries) c) as Hup.
  pose proof (reconcile_trace_filter is_schedule w s3_bucket monitor_path
                contents flag (local_files_of entries) c
                (fun _ _ => eq_refl) (fun _ _ _ _ => eq_refl)) as Hsched.
  pose proof (reconcile_ends w s3_bucket monitor_path contents flag
                (local_files_of entries) c) as Hends.
  unfold argv. rewrite main_six, Hfs, Hl. cbn zeta.
  fold s3_bucket contents flag.
  destruct (reconcile w s3_bucket monitor_path contents flag
              (local_files_of entries) c) as [t r].
  cbn [fst snd] in *.
  set (warn := match IsTruncated response with
               | Some true => [Log WARNING MsgTruncated]
               | _ => []
               end).
  assert (Hwarn : warn = [] \/ warn = [Log WARNING MsgTruncated]).
  { unfold warn. destruct (IsTruncated response) as [[|]|]; auto. }
  set (tail := match r with
               | Ret _ _ => [Log INFO (MsgMonitoring monitor_path);
                             Schedule monitor_path true; ObserverStart]
               | _ => []
               end).
  assert (Htail : reported_files tail = []).
  { unfold tail. destruct r; reflexivity. }
  assert (Hrep : reported_files
                   ((Log DEBUG MsgCreatingClient :: ListObjectsV2 b :: warn)
                      ++ t ++ tail) = reported_files t).
  { rewrite !reported_files_app, Htail, app_nil_r.
    destruct Hwarn as [-> | ->]; reflexivity. }
  split; [rewrite Hrep; exact Hprefix|].
  split.
  { intros Hrun. rewrite Hrep.
    destruct Hends as [-> | [e ->]]; [|discriminate].
    now apply (Hall c). }
  split.
  { intros f bk k s Hin.
    apply in_app_or in Hin as [Hin|Hin].
    - exfalso. destruct Hin as [Hin|[Hin|Hin]]; try discriminate.
      destruct Hwarn as [E|E]; rewrite E in Hin;
        [destruct Hin | destruct Hin as [Hin|[]]; discriminate].
    - apply in_app_or in Hin as [Hin|Hin]; [exact (Hup _ _ _ _ Hin)|].
      exfalso. unfold tail in Hin. destruct r; cbn in Hin;
        repeat (destruct Hin as [Hin|Hin]; [discriminate|]); exact Hin. }
  split.
  { intros path recursive Hin.
    apply in_app_or in Hin as [Hin|Hin].
    - exfalso. destruct Hin as [Hin|[Hin|Hin]]; try discriminate.
      destruct Hwarn as [E|E]; rewrite E in Hin;
        [destruct Hin | destruct Hin as [Hin|[]]; discriminate].
    - apply in_app_or in Hin as [Hin|Hin].
      + exfalso.
        assert (Hf : In (Schedule path recursive) (filter is_schedule t)).
        { apply filter_In. split; [exact Hin | reflexivity]. }
        rewrite Hsched in Hf. exact Hf.
      + unfold tail in Hin. destruct r; cbn in Hin;
          try (now destruct Hin).
        destruct Hin as [Hin|[Hin|[Hin|[]]]]; try discriminate.
        injection Hin as <- <-. auto. }
  split.
  { intros Hrun. apply in_or_app. right. apply in_or_app. right.
    unfold tail. destruct Hends as [-> | [e ->]]; [|discriminate].
    cbn. auto. }
  split; [intros fuel event k; apply dispatch_upload_matches|].
  intros p. now apply (matches_backup_regex handler).
Qed.

Lemma C9_witness :
  reported_files (fst (main Scenario.w Scenario.argv 0))
  = ["/backup/a.tar"; "/backup/b.tar"; "/backup/c.tar"; "/backup/notes.txt"]
  /\ In (Schedule "/backup" true) (fst (main Scenario.w Scenario.argv 0)).
Proof.
  pose proof (C9_eligibility_asymmetry Scenario.w "amazon-s3-backup.py"
                "/backup" "my-backups" "eu-west-1" "STANDARD_IA" "True"
                "backup" 4096%N
                [RegularFile "a.tar" 100; RegularFile "b.tar" 200;
                 RegularFile "c.tar" 300; RegularFile "notes.txt" 7;
                 Directory "old" 4096 [RegularFile "d.tar" 50]]
                Scenario.listing 0 eq_refl eq_refl)
    as (_ & _ & Hall & _ & _ & Hsched & _).
  split; [exact (Hall eq_refl) | exact (Hsched eq_refl)].
Defined.

(** ** The bucket wrapper *)

(** X8.  [list_bucket] raises exactly when the provider call raises.  A
    [NoSuchBucket] is logged and replaced by a bare [Exception]; any other
    exception passes through unlogged; [NoSuchBucket] itself never
    reaches the caller. *)
Theorem list_bucket_raises_iff_provider_raises
    (w : world) (self : S3Bucket) (c : nat) :
  (forall e k,
     snd (list_bucket w self c) = Raise e k ->
     k = c /\ e <> NoSuchBucket /\
     exists e0,
       list_objects_v2 w (bucket_name self) = inl e0 /\
       e = (if is_NoSuchBucket e0 then Exception_ else e0) /\
       fst (list_bucket w self c)
       = ListObjectsV2 (bucket_name self)
           :: (if is_NoSuchBucket e0 then [Log ERROR (MsgListError e0)]
               else [])) /\
  (forall e0,
     list_objects_v2 w (bucket_name self) = inl e0 ->
     snd (list_bucket w self c)
     = Raise (if is_NoSuchBucket e0 then Exception_ else e0) c).
Proof.
  rewrite list_bucket_run. split.
  - intros e k H.
    destruct (list_objects_v2 w (bucket_name self)) as [e0|response];
      [|discriminate].
    destruct (is_NoSuchBucket e0) eqn:E; cbn [fst snd] in *;
      injection H as <- <-.
    + repeat split; [discriminate|].
      exists e0. rewrite E. auto.
    + repeat split.
      * intros ->. discriminate.
      * exists e0. rewrite E. auto.
  - intros e0 ->. destruct (is_NoSuchBucket e0); reflexivity.
Qed.

Lemma list_bucket_raises_iff_provider_raises_witness :
  snd (list_bucket Scenario.w_no_bucket Scenario.bucket 0)
  = Raise Exception_ 0.
Proof.
  exact (proj2 (list_bucket_raises_iff_provider_raises Scenario.w_no_bucket
                  Scenario.bucket 0) NoSuchBucket eq_refl).
Defined.

(** X9.  When the provider answers, [list_bucket] makes that one call and
    returns one object for each entry of [Contents], in order, bearing the
    entry's key as name and its size; a response without [Contents], as an
    empty bucket gives, or with an empty one, yields the empty list. *)
Theorem list_bucket_mirrors_contents
    (w : world) (self : S3Bucket) (response : list_response) (c : nat) :
  list_objects_v2 w (bucket_name self) = inr response ->
  exists objects,
    snd (list_bucket w self c) = Ret objects c /\
    filter is_list_call (fst (list_bucket w self c))
    = [ListObjectsV2 (bucket_name self)] /\
    upload_calls (fst (list_bucket w self c)) = [] /\
    map name objects
    = map Key (match Contents response with Some l => l | None => [] end) /\
    map size objects
    = map Size (match Contents response with Some l => l | None => [] end)
    /\
    (Contents response = None \/ Contents response = Some [] ->
     objects = []).
Proof.
  intros Hl. rewrite list_bucket_run, Hl. cbn [fst snd].
  exists (map to_remote (contents_or_nil response)).
  unfold contents_or_nil.
  split; [reflexivity|].
  split; [destruct (IsTruncated response) as [[|]|]; reflexivity|].
  split; [destruct (IsTruncated response) as [[|]|]; reflexivity|].
  destruct (Contents response) as [[|x xs]|].
  - repeat split; reflexivity.
  - repeat split; try (rewrite map_map; reflexivity).
    intros [H|H]; discriminate.
  - repeat split; reflexivity.
Qed.

Lemma list_bucket_mirrors_contents_witness :
  exists objects,
    snd (list_bucket Scenario.w Scenario.bucket 0) = Ret objects 0 /\
    map name objects = ["b.tar"; "c.tar"].
Proof.
  destruct (list_bucket_mirrors_contents Scenario.w Scenario.bucket
              Scenario.listing 0 eq_refl)
    as (objects & Hret & _ & _ & Hnames & _).
  exists objects. split; [exact Hret | exact Hnames].
Defined.

Lemma is_S3UploadFailedError_iff (e : exn) :
  is_S3UploadFailedError e = true <-> e = S3UploadFailedError.
Proof. destruct e; cbn; split; intros H; try discriminate; reflexivity. Qed.

(** X10.  [upload_file] calls the provider once, whatever happens.  It
    returns when the provider succeeds or fails with
    [S3UploadFailedError], and raises exactly what else the provider
    raises; the success message is logged only when the provider
    succeeded. *)
Theorem upload_file_outcome
    (w : world) (self : S3Bucket) (file : string) (c : nat) :
  let uploaded := Log INFO (MsgUploaded (Pathlib.name file)
                              (bucket_name self) (storage_class self)) in
  upload_calls (fst (upload_file w self file c))
  = [UploadFile file (bucket_name self) (Pathlib.name file)
       (storage_class self)] /\
  (snd (upload_file w self file c) = Ret tt c <->
   s3_upload_file w file = None \/
   s3_upload_file w file = Some S3UploadFailedError) /\
  (forall e k,
     snd (upload_file w self file c) = Raise e k <->
     k = c /\ s3_upload_file w file = Some e /\ e <> S3UploadFailedError) /\
  (In uploaded (fst (upload_file w self file c)) <->
   s3_upload_file w file = None).
Proof.
  intros uploaded. split; [apply upload_file_calls|].
  rewrite upload_file_run.
  destruct (s3_upload_file w file) as [e0|].
  - destruct (is_S3UploadFailedError e0) eqn:E; cbn [fst snd].
    + apply is_S3UploadFailedError_iff in E. subst e0.
      split; [split; auto|]. split.
      * intros e k. split; [discriminate|].
        intros (_ & H & Hne). injection H as <-. contradiction.
      * split; [|discriminate].
        intros [H|[H|[H|[]]]]; discriminate.
    + assert (Hne : e0 <> S3UploadFailedError).
      { intros ->. discriminate. }
      split; [split; [discriminate|]|].
      * intros [H|H]; [discriminate|]. injection H as ->. contradiction.
      * split.
        -- intros e k. split.
           ++ intros H. injection H as <- <-. auto.
           ++ intros (-> & H & _). injection H as <-. reflexivity.
        -- split; [|discriminate].
           intros [H|[H|[]]]; discriminate.
  - cbn [fst snd]. split; [split; auto|]. split.
    + intros e k. split; [discriminate|]. intros (_ & H & _). discriminate.
    + split; [reflexivity|]. intros _. right. right. now left.
Qed.

Lemma upload_file_outcome_witness :
  snd (upload_file Cases.w_offline Scenario.bucket "/backup/a.tar" 0)
  = Raise (OtherError "EndpointConnectionError") 0.
Proof.
  apply (proj1 (proj2 (proj2 (upload_file_outcome Cases.w_offline
                 Scenario.bucket "/backup/a.tar" 0)))).
  repeat split. discriminate.
Defined.

Lemma split_slash_components (s : string) :
  Forall (fun x => Str.has_slash x = false) (Str.split_slash s).
Proof.
  induction s as [|ch s IH]; cbn.
  - repeat constructor.
  - destruct (Ascii.eqb ch Str.slash) eqn:E.
    + constructor; [reflexivity | exact IH].
    + destruct (Str.split_slash s) as [|x xs].
      * constructor; [cbn; now rewrite E | constructor].
      * inversion IH as [|? ? Hx Hxs]; subst.
        constructor; [cbn; now rewrite E, Hx | exact Hxs].
Qed.

Lemma name_has_no_slash (p : string) :
  Str.has_slash (Pathlib.name p) = false.
Proof.
  unfold Pathlib.name, Pathlib.parts.
  assert (H : Forall (fun x => Str.has_slash x = false)
                (filter Pathlib.keeps (Str.split_slash p))).
  { apply Forall_forall. intros x Hx. apply filter_In in Hx as [Hx _].
    pose proof (split_slash_components p) as Hall.
    rewrite Forall_forall in Hall. now apply Hall. }
  induction (filter Pathlib.keeps (Str.split_slash p)) as [|x xs IH];
    [reflexivity|].
  inversion H as [|? ? Hx Hxs]; subst.
  destruct xs as [|y ys]; [exact Hx|]. now apply IH.
Qed.

(** X11.  The key under which a file is uploaded is the last component of
    its path: it never contains a slash, so every upload lands at the top
    level of the bucket, and two files of the same name in different
    directories of the watched tree are sent under one and the same
    key. *)
Theorem upload_key_is_flat
    (w : world) (self : S3Bucket) (file : string) (c : nat) :
  (forall f b k sc,
     In (UploadFile f b k sc) (fst (upload_file w self file c)) ->
     f = file /\ k = Pathlib.name file /\ Str.has_slash k = false) /\
  (forall d1 d2 n,
     Pathlib.entry_name n = true ->
     upload_calls (fst (upload_file w self (Pathlib.join d1 n) c))
     = [UploadFile (Pathlib.join d1 n) (bucket_name self) n
          (storage_class self)] /\
     upload_calls (fst (upload_file w self (Pathlib.join d2 n) c))
     = [UploadFile (Pathlib.join d2 n) (bucket_name self) n
          (storage_class self)]).
Proof.
  split.
  - intros f b k sc Hin.
    assert (Hc : In (UploadFile f b k sc)
                   (upload_calls (fst (upload_file w self file c)))).
    { apply filter_In. split; [exact Hin | reflexivity]. }
    rewrite upload_file_calls in Hc. destruct Hc as [Hc|[]].
    injection Hc as <- _ <- _.
    repeat split. apply name_has_no_slash.
  - intros d1 d2 n Hn.
    rewrite !upload_file_calls, !(name_join _ _ Hn). split; reflexivity.
Qed.

Lemma upload_key_is_flat_witness :
  upload_calls
    (fst (upload_file Scenario.w Scenario.bucket "/backup/old/d.tar" 0))
  = [UploadFile "/backup/old/d.tar" "my-backups" "d.tar" "STANDARD_IA"] /\
  upload_calls
    (fst (upload_file Scenario.w Scenario.bucket "/backup/d.tar" 0))
  = [UploadFile "/backup/d.tar" "my-backups" "d.tar" "STANDARD_IA"].
Proof.
  exact (proj2 (upload_key_is_flat Scenario.w Scenario.bucket "" 0)
           "/backup/old" "/backup" "d.tar" eq_refl).
Defined.

(** ** The handler and the detector *)

(** What a returned poll has cost, from any starting value. *)
Lemma poll_size_cost (w : world) (p : string) (samples : nat -> N) :
  (forall t, getsize w p t = Some (samples t)) ->
  forall fuel file_size c t k,
    poll_size fuel w p file_size c = (t, Ret tt k) ->
    c <= k /\
    List.length (filter is_sleep t) = k - c /\
    List.length (filter is_getsize t) = 2 * (k - c) + 1.
Proof.
  intros Hs. induction fuel as [|fuel IH]; intros file_size c t k H;
    [discriminate|].
  rewrite (poll_size_step w p samples Hs) in H.
  destruct (Z.eqb file_size (Z.of_N (samples c))).
  - injection H as <- <-. cbn. repeat split; lia.
  - destruct (poll_size fuel w p (Z.of_N (samples c)) (S c))
      as [t' r'] eqn:Hrec.
    injection H as <- ->.
    destruct (IH _ _ _ _ Hrec) as (Hle & Hsl & Hrd).
    cbn [filter is_sleep is_getsize List.length].
    rewrite Hsl, Hrd. repeat split; lia.
Qed.

(** X12.  What the detector costs.  For a file whose size is sampled once
    a second, a poll that returns at time [k], started at time [c], has
    slept [k - c] times, one second each, and read the size
    [2 * (k - c) + 1] times: no file is released in less than a second and
    three reads, even one that never changes. *)
Theorem poll_size_reads_and_sleeps
    (w : world) (p : string) (samples : nat -> N)
    (fuel c : nat) (t : trace) (k : nat) :
  (forall t, getsize w p t = Some (samples t)) ->
  poll_size fuel w p (-1) c = (t, Ret tt k) ->
  1 <= k - c /\
  filter is_sleep t = repeat (Sleep 1) (k - c) /\
  List.length (filter is_getsize t) = 2 * (k - c) + 1 /\
  Forall (fun e => is_sleep e || is_getsize e = true) t.
Proof.
  intros Hs H.
  destruct (poll_size_cost w p samples Hs _ _ _ _ _ H) as (_ & Hsl & Hrd).
  destruct (poll_size_ret w p samples Hs _ _ _ _ _ H)
    as [(E & _) | (_ & Hlt & _)];
    [exfalso; exact (minus_one_is_no_size samples c E)|].
  assert (Hshape : forall fuel file_size c t r,
            poll_size fuel w p file_size c = (t, r) ->
            Forall (fun e => is_sleep e || is_getsize e = true) t /\
            Forall (fun e => e = Sleep 1) (filter is_sleep t)).
  { clear. induction fuel as [|fuel IH]; intros file_size c t r H.
    - injection H as <- _. split; constructor.
    - cbn [poll_size] in H. unfold os_path_getsize in H. revert H. run_m.
      destruct (getsize w p c) as [n|] eqn:G;
        [|intros H; injection H as <- _; split; constructor].
      destruct (Z.eqb file_size (Z.of_N n)); cbn.
      + intros H; injection H as <- _. split; repeat constructor.
      + rewrite G.
        destruct (poll_size fuel w p (Z.of_N n) (c + 1)) as [t' r'] eqn:R.
        destruct (IH _ _ _ _ R) as [IH1 IH2].
        destruct r'; intros H; injection H as <- _; cbn;
          split; repeat constructor; auto. }
  destruct (Hshape _ _ _ _ _ H) as [Hall Hsleeps].
  repeat split; auto; [lia|].
  rewrite <- Hsl. clear - Hsleeps.
  induction (filter is_sleep t) as [|x xs IH]; [reflexivity|].
  inversion Hsleeps as [|? ? Hx Hxs]; subst. cbn. f_equal. now apply IH.
Qed.

Lemma poll_size_reads_and_sleeps_witness :
  filter is_sleep
    (fst (poll_size 9 Scenario.w "/backup/new.tar" (-1) 0))
  = repeat (Sleep 1) 4.
Proof.
  exact (proj1 (proj2
           (poll_size_reads_and_sleeps Scenario.w "/backup/new.tar"
              Scenario.growth 9 0
              (fst (poll_size 9 Scenario.w "/backup/new.tar" (-1) 0)) 4
              (fun t => eq_refl) eq_refl))).
Defined.

(** X13.  A size that cannot be read stops the handler before any upload:
    if the detector raises, [dispatch] raises the same exception without
    having called the provider; a file that is gone when the event is
    handled gives [OSError] right after the processing log; and the
    observer's thread, which the exception leaves, handles none of the
    events that follow. *)
Theorem dispatch_size_error_uploads_nothing
    (w : world) (self : BackupEventHandler) (event : fs_event)
    (fuel c : nat) :
  let p := src_path event in
  matches self p = true -> ev_type event = Created ->
  (forall e k,
     snd (poll_size fuel w p (-1) c) = Raise e k ->
     snd (dispatch fuel w self event c) = Raise e k /\
     upload_calls (fst (dispatch fuel w self event c)) = []) /\
  (getsize w p c = None ->
   dispatch (S fuel) w self event c
   = ([Log INFO (MsgProcessing p)], Raise (OtherError "OSError") c)) /\
  (forall d recursive events e k,
     observed recursive d p = true ->
     snd (dispatch fuel w self event c) = Raise e k ->
     observer_thread fuel w self d recursive (event :: events) c
     = dispatch fuel w self event c).
Proof.
  intros p Hm Hty. split; [|split].
  - intros e k H.
    pose proof (process_upload_calls fuel w self event c) as Hu.
    cbn zeta in Hu. fold p in Hu.
    rewrite dispatch_run. fold p. rewrite Hm, Hty.
    rewrite H in Hu. split; [|exact Hu].
    rewrite process_run. fold p.
    destruct (poll_size fuel w p (-1) c) as [t r]. cbn [snd] in H.
    now subst r.
  - intros Hg. rewrite dispatch_run. fold p. rewrite Hm, Hty, process_run.
    fold p. cbn [poll_size]. unfold os_path_getsize. run_m.
    now rewrite Hg.
  - intros d recursive events e k Hobs H.
    unfold observer_thread. rewrite for_each_cons. fold p. rewrite Hobs.
    destruct (dispatch fuel w self event c) as [t r]. cbn [snd] in H.
    now subst r.
Qed.

Lemma dispatch_size_error_uploads_nothing_witness :
  dispatch 9 Cases.w_vanished Scenario.handler
    (Scenario.created "/backup/new.tar") 0
  = ([Log INFO (MsgProcessing "/backup/new.tar")],
     Raise (OtherError "OSError") 0).
Proof.
  exact (proj1 (proj2 (dispatch_size_error_uploads_nothing Cases.w_vanished
                 Scenario.handler (Scenario.created "/backup/new.tar") 8 0
                 eq_refl eq_refl)) eq_refl).
Defined.

(** X14.  Events that are not creations, or whose path matches no pattern
    of the handler, or that lie outside the watch, leave no trace at all:
    a thread that is handed only such events reads no size, sleeps none,
    uploads nothing and returns.  Modifying, moving or deleting an archive
    never causes an upload. *)
Theorem observer_thread_ignores_other_events
    (fuel : nat) (w : world) (self : BackupEventHandler) (d : string)
    (recursive : bool) (events : list fs_event) (c : nat) :
  (forall event, In event events ->
     ev_type event <> Created \/
     matches self (src_path event) = false \/
     observed recursive d (src_path event) = false) ->
  observer_thread fuel w self d recursive events c = ([], Ret tt c).
Proof.
  unfold observer_thread. induction events as [|event events IH];
    intros Hall; [reflexivity|].
  rewrite for_each_cons.
  assert (Hev : (if observed recursive d (src_path event)
                 then dispatch fuel w self event else ret tt) c
                = ([], Ret tt c)).
  { destruct (observed recursive d (src_path event)) eqn:Ho;
      [|reflexivity].
    rewrite dispatch_run.
    destruct (Hall event (or_introl eq_refl)) as [Hty | [Hm | Hobs]].
    - destruct (matches self (src_path event)); [|reflexivity].
      destruct (ev_type event); try reflexivity. now contradiction Hty.
    - now rewrite Hm.
    - congruence. }
  rewrite Hev, IH; [reflexivity|].
  intros e He. apply Hall. now right.
Qed.

Lemma observer_thread_ignores_other_events_witness :
  observer_thread 9 Scenario.w Scenario.handler "/backup" true
    [ {| ev_type := Modified; src_path := "/backup/b.tar";
         is_directory := false |};
      {| ev_type := Deleted; src_path := "/backup/c.tar";
         is_directory := false |};
      Scenario.created "/backup/notes.txt";
      Scenario.created "/elsewhere/x.tar" ] 0
  = ([], Ret tt 0).
Proof.
  apply observer_thread_ignores_other_events.
  intros event Hin. cbn in Hin.
  destruct Hin as [<-|[<-|[<-|[<-|[]]]]].
  - left. discriminate.
  - left. discriminate.
  - right. left. reflexivity.
  - right. right. reflexivity.
Defined.

Lemma lower_ascii_idempotent (ch : ascii) :
  Str.lower_ascii (Str.lower_ascii ch) = Str.lower_ascii ch.
Proof. destruct ch as [[] [] [] [] [] [] [] []]; reflexivity. Qed.

Lemma lower_ascii_newline (ch : ascii) :
  Ascii.eqb (Str.lower_ascii ch) Str.newline = Ascii.eqb ch Str.newline.
Proof. destruct ch as [[] [] [] [] [] [] [] []]; reflexivity. Qed.

Lemma at_end_lower (s : string) :
  Regex.at_end (Str.lower s) = Regex.at_end s.
Proof.
  destruct s as [|ch [|ch' s]]; cbn [Str.lower Regex.at_end];
    auto using lower_ascii_newline.
Qed.

(** Without regard to case, a pattern cannot tell a string from its lower
    case. *)
Lemma re_match_lower (p : Regex.pattern) (s : string) :
  Regex.re_match true p (Str.lower s) = Regex.re_match true p s.
Proof.
  revert s. induction p as [|a p IH]; intros s; [reflexivity|].
  destruct a as [|ch|].
  - induction s as [|ch s IHs]; [reflexivity|].
    cbn [Str.lower]. rewrite !re_match_plus_cons.
    now rewrite lower_ascii_newline, IH, IHs.
  - destruct s as [|ch' s]; [reflexivity|].
    cbn [Str.lower Regex.re_match]. unfold Regex.char_eq.
    now rewrite lower_ascii_idempotent, IH.
  - cbn [Regex.re_match]. now rewrite at_end_lower, IH.
Qed.

(** X15.  The handler [FileWatcher] builds does not look at the case of
    the path: a path matches exactly when its lower case does, so
    [BACKUP.TAR] is an archive as [backup.tar] is. *)
Theorem handler_matches_whatever_the_case
    (s3_bucket : S3Bucket) (p : string) :
  matches (BackupEventHandler_init s3_bucket) (Str.lower p)
  = matches (BackupEventHandler_init s3_bucket) p.
Proof.
  unfold matches. cbn [regexes case_sensitive BackupEventHandler_init negb].
  unfold BACKUP_REGEX. cbn [existsb]. now rewrite re_match_lower.
Qed.

(** ** The log level *)

Module LoggingFacts.
Import Logging.

Lemma str_eqb_spec (a b : pystr) : reflect (a = b) (str_eqb a b).
Proof.
  revert b. induction a as [|x a IH]; intros [|y b]; cbn;
    try (constructor; congruence).
  destruct (N.eqb_spec x y) as [->|Hne]; cbn.
  - destruct (IH b) as [->|Hne]; constructor; congruence.
  - constructor. congruence.
Qed.

Lemma set_log_level_some (s : pystr) :
  set_log_level (Some s) = dict_get level_map (strip s) NOTSET.
Proof. destruct s; reflexivity. Qed.

Lemma lstrip_pad (pad x : pystr) :
  forallb is_space pad = true -> lstrip (pad ++ x) = lstrip x.
Proof.
  induction pad as [|cp pad IH]; cbn; intros H; [reflexivity|].
  apply andb_true_iff in H as [Hc H]. rewrite Hc. auto.
Qed.

Lemma lstrip_spaces (pad : pystr) :
  forallb is_space pad = true -> lstrip pad = [].
Proof.
  intros H. rewrite <- (app_nil_r pad). now rewrite lstrip_pad.
Qed.

Lemma rstrip_spaces (pad : pystr) :
  forallb is_space pad = true -> rstrip pad = [].
Proof.
  induction pad as [|cp pad IH]; cbn; intros H; [reflexivity|].
  apply andb_true_iff in H as [Hc H]. now rewrite (IH H), Hc.
Qed.

Lemma rstrip_pad (x pad : pystr) :
  forallb is_space pad = true -> rstrip (x ++ pad) = rstrip x.
Proof.
  intros H. induction x as [|cp x IH]; cbn.
  - now apply rstrip_spaces.
  - now rewrite IH.
Qed.

Lemma strip_pad_right (s pad : pystr) :
  forallb is_space pad = true -> strip (s ++ pad) = strip s.
Proof.
  intros H. unfold strip. induction s as [|cp s IH].
  - cbn [app]. now rewrite (lstrip_spaces _ H).
  - cbn [app lstrip]. destruct (is_space cp); [exact IH|].
    exact (rstrip_pad (cp :: s) pad H).
Qed.

(** X16.  White space around the configured level does not count: padding
    the value of [LOG_LEVEL] on either side with white-space characters,
    those of the Unicode database, gives the same level. *)
Theorem set_log_level_ignores_padding (s pad1 pad2 : pystr) :
  forallb is_space pad1 = true -> forallb is_space pad2 = true ->
  set_log_level (Some (pad1 ++ s ++ pad2)) = set_log_level (Some s).
Proof.
  intros H1 H2. rewrite !set_log_level_some. f_equal.
  unfold strip at 1. rewrite (lstrip_pad _ _ H1).
  exact (strip_pad_right s pad2 H2).
Qed.

Lemma set_log_level_ignores_padding_witness :
  set_log_level (Some ([9; 160] ++ literal "3" ++ [12288; 10])%N)
  = levelno WARNING.
Proof.
  exact (set_log_level_ignores_padding (literal "3") [9; 160]%N
           [12288; 10]%N eq_refl eq_refl).
Defined.

(** X17.  Anything that is not one of the digits 1 to 7 once stripped
    leaves the level at [NOTSET]: a variable that is not set, an empty
    one, a word, a number out of range, and 8 itself.  The seven digits
    give a level from [DEBUG] to [CRITICAL]. *)
Theorem set_log_level_defaults_to_notset :
  set_log_level None = NOTSET /\
  (forall s,
     ~ In (strip s) (map digit [1; 2; 3; 4; 5; 6; 7]) ->
     set_log_level (Some s) = NOTSET) /\
  (forall s,
     In (strip s) (map digit [1; 2; 3; 4; 5; 6; 7]) ->
     (levelno DEBUG <= set_log_level (Some s) <= levelno CRITICAL)%Z).
Proof.
  split; [reflexivity|]. split.
  - intros s Hnot. rewrite set_log_level_some.
    unfold level_map. cbn [dict_get].
    repeat match goal with
           | |- context [str_eqb ?k (strip s)] =>
               destruct (str_eqb_spec k (strip s)) as [E|_];
               [try reflexivity; exfalso; apply Hnot; rewrite <- E;
                cbn; tauto|]
           end.
    reflexivity.
  - intros s Hin. rewrite set_log_level_some.
    cbn in Hin.
    destruct Hin as [<-|[<-|[<-|[<-|[<-|[<-|[<-|[]]]]]]]];
      cbn; lia.
Qed.

Lemma set_log_level_defaults_to_notset_witness :
  set_log_level (Some (literal "debug")) = NOTSET /\
  (levelno DEBUG <= set_log_level (Some (literal "3" ++ [160])%N)
   <= levelno CRITICAL)%Z.
Proof.
  pose proof set_log_level_defaults_to_notset as (_ & Hnot & Hin).
  split.
  - apply Hnot. cbn. intros H.
    repeat (destruct H as [H|H]; [discriminate|]). exact H.
  - apply Hin. cbn. tauto.
Defined.

(** X18.  The scale is kept: of two configured levels between 1 and 8, the
    larger never gives the higher threshold, so a larger number logs at
    least as much. *)
Theorem set_log_level_antitone (i j : nat) :
  1 <= i -> i <= j -> j <= 8 ->
  (set_log_level (Some (digit j)) <= set_log_level (Some (digit i)))%Z.
Proof.
  intros H1 Hij H8.
  assert (Hi : i = 1 \/ i = 2 \/ i = 3 \/ i = 4 \/ i = 5 \/ i = 6 \/
               i = 7 \/ i = 8) by lia.
  assert (Hj : j = 1 \/ j = 2 \/ j = 3 \/ j = 4 \/ j = 5 \/ j = 6 \/
               j = 7 \/ j = 8) by lia.
  destruct Hi as [-> | [-> | [-> | [-> | [-> | [-> | [-> | ->]]]]]]];
    destruct Hj as [-> | [-> | [-> | [-> | [-> | [-> | [-> | ->]]]]]]];
    try lia; vm_compute; discriminate.
Qed.

Lemma set_log_level_antitone_witness :
  (set_log_level (Some (literal "7")) <= set_log_level (Some (literal "2")))%Z.
Proof.
  apply (set_log_level_antitone 2 7); lia.
Defined.

End LoggingFacts.

(** ** More on the Supervisor client *)

Module SupervisorAPIMore.
Import SupervisorAPI.

(** The outcomes the helpers turn into [SupervisorAPIError]. *)
Lemma handle_api_error (o : http_outcome) :
  (exists msg, handle o = Err (SupervisorAPIError msg)) <->
  o = ConnectionError \/ o = RetryError \/ o = Timeout \/
  o = Response true None.
Proof.
  split.
  - intros [msg H]. destruct o as [| | |what|ok [v|]]; cbn in H; auto;
      try discriminate; destruct ok; try discriminate; auto.
  - intros [-> | [-> | [-> | ->]]]; cbn; eauto.
Qed.

Lemma py_get_not_api_error (v : pyval) (key : string) (default : pyval)
    (msg : string) :
  py_get v key default <> Err (SupervisorAPIError msg).
Proof.
  destruct v; cbn; try discriminate.
  destruct (dict_lookup d key); discriminate.
Qed.

(** X19.  The three methods raise [SupervisorAPIError] exactly when the
    request fails in transport (connection, retries exhausted, timeout)
    or a successful response carries no JSON document; every other
    failure of theirs is something else. *)
Theorem supervisor_api_error_iff_transport_or_decoding
    (self : session) (slug : string) :
  ((exists msg, get_snapshots self = Err (SupervisorAPIError msg)) <->
   let o := session_get self (BASE_URL ++ "/snapshots")%string in
   o = ConnectionError \/ o = RetryError \/ o = Timeout \/
   o = Response true None) /\
  ((exists msg, get_snapshot self slug = Err (SupervisorAPIError msg)) <->
   let o := session_get self
              (BASE_URL ++ ("/snapshots/" ++ slug ++ "/info"))%string in
   o = ConnectionError \/ o = RetryError \/ o = Timeout \/
   o = Response true None) /\
  ((exists msg, remove_snapshot self slug = Err (SupervisorAPIError msg)) <->
   let o := session_post self
              (BASE_URL ++ ("/snapshots/" ++ slug ++ "/remove"))%string in
   o = ConnectionError \/ o = RetryError \/ o = Timeout \/
   o = Response true None).
Proof.
  cbn zeta. split; [|split].
  - rewrite <- handle_api_error. unfold get_snapshots, _get.
    destruct (handle (session_get self _)) as [v|e]; cbn [res_bind].
    + split; intros [msg H]; [|discriminate]. exfalso.
      destruct (py_get v "data" (PDict [])) as [data|e] eqn:E;
        cbn [res_bind] in H.
      * exact (py_get_not_api_error _ _ _ _ H).
      * injection H as ->. exact (py_get_not_api_error _ _ _ _ E).
    + reflexivity.
  - rewrite <- handle_api_error. unfold get_snapshot, _get.
    destruct (handle (session_get self _)) as [v|e]; cbn [res_bind].
    + split; intros [msg H]; [|discriminate]. exfalso.
      exact (py_get_not_api_error _ _ _ _ H).
    + reflexivity.
  - rewrite <- handle_api_error. unfold remove_snapshot, _post.
    destruct (handle (session_post self _)) as [v|e]; cbn [res_bind].
    + split; intros [msg H]; [|discriminate]. exfalso.
      destruct (py_get v "result" PNone) as [r|e] eqn:E;
        cbn [res_bind] in H; [discriminate|].
      injection H as ->. exact (py_get_not_api_error _ _ _ _ E).
    + split; intros [msg H]; exists msg; injection H as ->; reflexivity.
Qed.

Lemma supervisor_api_error_iff_transport_or_decoding_witness :
  exists msg,
    get_snapshots Cases.supervisor_html = Err (SupervisorAPIError msg).
Proof.
  apply (proj1 (supervisor_api_error_iff_transport_or_decoding
                  Cases.supervisor_html "abc123")).
  cbn. auto.
Defined.

(** X20.  [get_snapshots] on a successful response whose document is an
    object: without a [data] member, or with a [data] object that has no
    [snapshots] member, the result is the empty list; with both it is the
    value of [snapshots]; and a [data] member that is no object (a JSON
    null for one) makes the method raise [AttributeError]. *)
Theorem get_snapshots_on_object
    (self : session) (d : list (string * pyval)) :
  session_get self (BASE_URL ++ "/snapshots")%string
  = Response true (Some (PDict d)) ->
  (dict_lookup d "data" = None -> get_snapshots self = Ok (PList [])) /\
  (forall dd,
     dict_lookup d "data" = Some (PDict dd) ->
     get_snapshots self
     = Ok (match dict_lookup dd "snapshots" with
           | Some v => v
           | None => PList []
           end)) /\
  (forall v,
     dict_lookup d "data" = Some v -> (forall dd, v <> PDict dd) ->
     get_snapshots self = Err AttributeError).
Proof.
  intros Hresp. unfold get_snapshots, _get. rewrite Hresp.
  cbn [handle res_bind py_get]. split; [|split].
  - intros ->. reflexivity.
  - intros dd ->. cbn [res_bind py_get].
    destruct (dict_lookup dd "snapshots"); reflexivity.
  - intros v -> Hv. cbn [res_bind].
    destruct v; try reflexivity. now contradiction (Hv d0).
Qed.

Lemma get_snapshots_on_object_witness :
  get_snapshots Cases.supervisor = Ok Cases.snapshots.
Proof.
  exact (proj1 (proj2 (get_snapshots_on_object Cases.supervisor _ eq_refl))
           [("snapshots", Cases.snapshots)] eq_refl).
Defined.

(** X21.  [remove_snapshot] answers [True] exactly when the request got a
    successful response whose document is an object with the string [ok]
    as [result]; it answers [False] exactly for the other objects, so a
    removal the Supervisor refused does not raise. *)
Theorem remove_snapshot_true_iff_result_ok
    (self : session) (slug : string) (b : bool) :
  remove_snapshot self slug = Ok b <->
  exists d,
    session_post self (BASE_URL ++ ("/snapshots/" ++ slug ++ "/remove"))%string
    = Response true (Some (PDict d)) /\
    b = match dict_lookup d "result" with
        | Some (PStr s) => String.eqb s "ok"
        | _ => false
        end.
Proof.
  unfold remove_snapshot, _post.
  destruct (session_post self _) as [| | |what|ok [v|]]; cbn [handle];
    try (split; [discriminate | intros (d & H & _); discriminate]).
  - destruct ok; cbn [res_bind].
    + destruct v as [| | | | |d]; cbn [py_get res_bind];
        try (split; [discriminate | intros (d & H & _); discriminate]).
      split.
      * intros H. exists d. split; [reflexivity|].
        destruct (dict_lookup d "result") as [[| | |s| |]|];
          cbn in H |- *; injection H as <-; try reflexivity.
        now destruct (String.eqb s "ok").
      * intros (d' & H & ->). injection H as <-.
        destruct (dict_lookup d "result") as [[| | |s| |]|];
          cbn; try reflexivity.
        now destruct (String.eqb s "ok").
    + cbn. split; [discriminate | intros (d & H & _); discriminate].
  - destruct ok; cbn;
      split; try discriminate; intros (d & H & _); discriminate.
Qed.

Lemma remove_snapshot_true_iff_result_ok_witness :
  remove_snapshot Cases.supervisor "abc123" = Ok true.
Proof.
  apply (proj2 (remove_snapshot_true_iff_result_ok Cases.supervisor
                  "abc123" true)).
  eexists. split; reflexivity.
Defined.

(** X22.  [get_snapshot] returns a value exactly on a successful response
    whose document is an object, and the value is the [data] member, or
    [None] when there is none: a snapshot without details and a missing
    member cannot be told apart by the caller. *)
Theorem get_snapshot_returns_data_or_none
    (self : session) (slug : string) (v : pyval) :
  get_snapshot self slug = Ok v <->
  exists d,
    session_get self (BASE_URL ++ ("/snapshots/" ++ slug ++ "/info"))%string
    = Response true (Some (PDict d)) /\
    v = match dict_lookup d "data" with
        | Some x => x
        | None => PNone
        end.
Proof.
  unfold get_snapshot, _get.
  destruct (session_get self _) as [| | |what|ok [body|]]; cbn [handle];
    try (split; [discriminate | intros (d & H & _); discriminate]).
  - destruct ok; cbn [res_bind].
    + destruct body as [| | | | |d]; cbn [py_get];
        try (split; [discriminate | intros (d & H & _); discriminate]).
      split.
      * intros H. exists d. split; [reflexivity|].
        destruct (dict_lookup d "data"); now injection H as <-.
      * intros (d' & H & ->). injection H as <-.
        destruct (dict_lookup d "data"); reflexivity.
    + cbn. split; [discriminate | intros (d & H & _); discriminate].
  - destruct ok; cbn;
      split; try discriminate; intros (d & H & _); discriminate.
Qed.

Lemma get_snapshot_returns_data_or_none_witness :
  get_snapshot Cases.supervisor "abc123"
  = Ok (PDict [("snapshots", Cases.snapshots)]).
Proof.
  apply (proj2 (get_snapshot_returns_data_or_none Cases.supervisor "abc123"
                  (PDict [("snapshots", Cases.snapshots)]))).
  eexists. split; reflexivity.
Defined.

(** X23.  A successful response whose JSON document is not an object (a
    list, a string, a number, a boolean, null) makes each of the three
    methods raise [AttributeError], as a failed status does. *)
Theorem supervisor_non_object_document_raises
    (self : session) (slug : string) (v : pyval) :
  (forall d, v <> PDict d) ->
  (session_get self (BASE_URL ++ "/snapshots")%string
   = Response true (Some v) ->
   get_snapshots self = Err AttributeError) /\
  (session_get self (BASE_URL ++ ("/snapshots/" ++ slug ++ "/info"))%string
   = Response true (Some v) ->
   get_snapshot self slug = Err AttributeError) /\
  (session_post self (BASE_URL ++ ("/snapshots/" ++ slug ++ "/remove"))%string
   = Response true (Some v) ->
   remove_snapshot self slug = Err AttributeError).
Proof.
  intros Hv.
  assert (Hget : forall key default, py_get v key default = Err AttributeError).
  { intros key default. destruct v; try reflexivity.
    now contradiction (Hv d). }
  split; [|split]; intros Hresp.
  - unfold get_snapshots, _get. rewrite Hresp. cbn [handle res_bind].
    now rewrite Hget.
  - unfold get_snapshot, _get. rewrite Hresp. cbn [handle res_bind].
    apply Hget.
  - unfold remove_snapshot, _post. rewrite Hresp. cbn [handle res_bind].
    now rewrite Hget.
Qed.

Lemma supervisor_non_object_document_raises_witness :
  get_snapshots
    {| session_get := fun _ => Response true (Some (PList []));
       session_post := fun _ => Response true (Some (PList [])) |}
  = Err AttributeError.
Proof.
  refine (proj1 (supervisor_non_object_document_raises
                   {| session_get := fun _ => Response true (Some (PList []));
                      session_post := fun _ => Response true (Some (PList []))
                   |} "abc123" (PList []) _) eq_refl).
  intros d. discriminate.
Defined.

End SupervisorAPIMore.

(** ** The bearer token *)

Module BearerAuthFacts.
Import BearerAuth.

Lemma get_set_same (h : headers) (key key' value : string) :
  Str.lower key' = Str.lower key ->
  get (set h key value) key' = Some value.
Proof.
  intros Hk. induction h as [|[k [k0 v]] h IH]; cbn.
  - now rewrite Hk, String.eqb_refl.
  - destruct (String.eqb k (Str.lower key)) eqn:E; cbn; rewrite Hk, E;
      [reflexivity | exact IH].
Qed.

Lemma get_set_other (h : headers) (key key' value : string) :
  Str.lower key' <> Str.lower key ->
  get (set h key value) key' = get h key'.
Proof.
  intros Hk. induction h as [|[k [k0 v]] h IH]; cbn.
  - apply String.eqb_neq in Hk. rewrite String.eqb_sym in Hk.
    now rewrite Hk.
  - destruct (String.eqb_spec k (Str.lower key)) as [->|Hne]; cbn.
    + apply String.eqb_neq in Hk. rewrite String.eqb_sym in Hk.
      now rewrite Hk.
    + destruct (String.eqb k (Str.lower key')); [reflexivity | exact IH].
Qed.

(** X24.  After [_BearerAuth] has been applied the request carries
    [Bearer <token>] as its authorization header, under whatever case the
    header is looked up and whatever it carried before; every other header
    is as it was; and applying a second token leaves only the second. *)
Theorem bearer_auth_sets_authorization
    (token : string) (r_headers : headers) :
  (forall key,
     Str.lower key = "authorization" ->
     get (call token r_headers) key = Some ("Bearer " ++ token)%string) /\
  (forall key,
     Str.lower key <> "authorization" ->
     get (call token r_headers) key = get r_headers key) /\
  (forall token' key,
     get (call token' (call token r_headers)) key
     = get (call token' r_headers) key).
Proof.
  unfold call. split; [|split].
  - intros key Hk. now apply get_set_same.
  - intros key Hk. now apply get_set_other.
  - intros token' key.
    destruct (String.eqb_spec (Str.lower key) "authorization") as [E|E].
    + rewrite !get_set_same; auto.
    + rewrite !get_set_other; auto.
Qed.

Lemma bearer_auth_sets_authorization_witness :
  get (call "s3cr3t"
         [("accept", ("Accept", "*/*"));
          ("authorization", ("Authorization", "Basic Zm9v"))])
    "Authorization"
  = Some "Bearer s3cr3t".
Proof.
  exact (proj1 (bearer_auth_sets_authorization "s3cr3t"
                  [("accept", ("Accept", "*/*"));
                   ("authorization", ("Authorization", "Basic Zm9v"))])
           "Authorization" eq_refl).
Defined.

End BearerAuthFacts.
